(** * House of EdTech media / web-view application: the services and the
    playback control coordinator of the video screen.

  The development follows the TypeScript sources:
  - [UrlService]           services/UrlService.ts   (validateAndNormalizeUrl)
  - [NotificationService]  services/NotificationService.ts
  - [VideoPlayer]          screens/VideoPlayerScreen.tsx

  Conventions of the embedding.
  - A JavaScript string is a [string]; its characters are the code units
    below 256 (the [ascii] type has eight bits).
  - Millisecond values (positions, durations, slider values) are [Z];
    NaN and the infinities are not represented.
  - A value that may be [undefined] is an [option]. *)

From Stdlib Require Import ZArith QArith Qround Bool List String Ascii Lia.
From Stdlib Require DecimalString.
Import ListNotations.

Local Open Scope string_scope.

(** ** JavaScript string primitives used by the sources *)
Module JsString.

(** White space removed by [String.prototype.trim], restricted to code
    units below 256: TAB, LF, VT, FF, CR, SPACE and NO-BREAK SPACE. *)
Definition isWhiteSpace (c : ascii) : bool :=
  let n := nat_of_ascii c in
  ((9 <=? n) && (n <=? 13) || (n =? 32) || (n =? 160))%nat.

Fixpoint trimStart (s : string) : string :=
  match s with
  | EmptyString => EmptyString
  | String c rest => if isWhiteSpace c then trimStart rest else s
  end.

Fixpoint trimEnd (s : string) : string :=
  match s with
  | EmptyString => EmptyString
  | String c rest =>
      match trimEnd rest with
      | EmptyString => if isWhiteSpace c then EmptyString else String c EmptyString
      | kept => String c kept
      end
  end.

Definition trim (s : string) : string := trimEnd (trimStart s).

(** [s.includes(needle)] *)
Definition includes (needle s : string) : bool :=
  match index 0 needle s with
  | Some _ => true
  | None => false
  end.

(** [String.prototype.toLowerCase] on code units below 256: the Latin
    capital letters A-Z and the Latin-1 capitals (192-222 but the
    multiplication sign 215) move up by 32. *)
Definition lowerChar (c : ascii) : ascii :=
  let n := nat_of_ascii c in
  if ((65 <=? n) && (n <=? 90)
      || (192 <=? n) && (n <=? 222) && negb (n =? 215))%nat
  then ascii_of_nat (n + 32) else c.

Fixpoint toLowerCase (s : string) : string :=
  match s with
  | EmptyString => EmptyString
  | String c rest => String (lowerChar c) (toLowerCase rest)
  end.

(** A string is falsy exactly when it is empty. *)
Definition truthy (s : string) : bool :=
  match s with
  | EmptyString => false
  | String _ _ => true
  end.

(** Every character is white space (the empty string included). *)
Fixpoint whitespaceOnly (s : string) : bool :=
  match s with
  | EmptyString => true
  | String c rest => isWhiteSpace c && whitespaceOnly rest
  end.

End JsString.

(** ** services/UrlService.ts *)
Module UrlService.
Import JsString.

Record UrlValidationResult : Type := {
  isValid : bool;
  normalizedUrl : option string
}.

(** The two fields of a WHATWG [URL] object that the service reads. *)
Record URL : Type := {
  protocol : string;
  href : string
}.

Definition rejected : UrlValidationResult :=
  {| isValid := false; normalizedUrl := None |}.

(** [/^https?:\/\//i.test(s)].  On code units below 256 the only
    characters that match a letter of the pattern case-insensitively are
    its own upper- and lower-case forms, so the test is a prefix test on
    the lower-cased string. *)
Definition schemeTest (s : string) : bool :=
  let l := toLowerCase s in
  prefix "http://" l || prefix "https://" l.

(** The string handed to the [URL] constructor. *)
Definition urlToTest (trimmedUrl : string) : string :=
  if negb (schemeTest trimmedUrl) then "https://" ++ trimmedUrl else trimmedUrl.

Section WithUrlConstructor.

(** [new URL(s)] of the host platform; [None] when it throws. *)
Variable newURL : string -> option URL.

Definition validateAndNormalizeUrl (rawUrl : string) : UrlValidationResult :=
  let trimmedUrl := trim rawUrl in
  if negb (truthy trimmedUrl) then rejected
  else
    match newURL (urlToTest trimmedUrl) with
    | Some urlObject =>
        let protocol := toLowerCase (protocol urlObject) in
        if (protocol =? "http:") || (protocol =? "https:")
        then {| isValid := true; normalizedUrl := Some (href urlObject) |}
        else rejected
    | None => rejected
    end.

End WithUrlConstructor.

(** The outcome of the [try] block for a given result of the constructor. *)
Definition protocolCheck (parsed : option URL) : UrlValidationResult :=
  match parsed with
  | Some urlObject =>
      if (toLowerCase (protocol urlObject) =? "http:")
         || (toLowerCase (protocol urlObject) =? "https:")
      then {| isValid := true; normalizedUrl := Some (href urlObject) |}
      else rejected
  | None => rejected
  end.

(** A constructor that knows one address, used to run the service. *)
Definition googleOnly (s : string) : option URL :=
  if s =? "https://google.com"
  then Some {| protocol := "https:"; href := "https://google.com/" |}
  else None.

End UrlService.

(** ** services/NotificationService.ts *)
Module NotificationService.

Definition MIN_DELAY : Z := 2.
Definition MAX_DELAY : Z := 5.

(** keyof RootStackParamList *)
Inductive Screen : Type := WebView | VideoPlayer.

Record NotificationData : Type := {
  targetScreen : option Screen
}.

Record ScheduleOptions : Type := {
  title : string;
  body : string;
  delaySeconds : option Q;
  data : option NotificationData
}.

Record Content : Type := {
  content_title : string;
  content_body : string;
  content_data : NotificationData
}.

Record Trigger : Type := {
  seconds : Q;
  channelId : string
}.

Record NotificationRequest : Type := {
  content : Content;
  trigger : Trigger
}.

(** The request handed to [Notifications.scheduleNotificationAsync].
    [random] is the value drawn by [Math.random()], a double in [0, 1);
    its product with the power of two [MAX_DELAY - MIN_DELAY + 1 = 4] is
    exact, so the rational arithmetic below is the double arithmetic. *)
Definition scheduleLocalNotification (random : Q) (options : ScheduleOptions)
  : NotificationRequest :=
  let delay :=
    match delaySeconds options with
    | Some custom => custom
    | None =>
        inject_Z (Qfloor (random * inject_Z (MAX_DELAY - MIN_DELAY + 1)) + MIN_DELAY)
    end in
  {| content :=
       {| content_title := title options;
          content_body := body options;
          content_data :=
            match data options with
            | Some d => d
            | None => {| targetScreen := None |}
            end |};
     trigger := {| seconds := delay; channelId := "default" |} |}.

End NotificationService.

(** ** screens/VideoPlayerScreen.tsx *)
Module VideoPlayer.
Import JsString.

Local Open Scope Z_scope.

Definition INITIAL_HLS_URL : string :=
  "https://test-streams.mux.dev/x36xhzz/x36xhzz.m3u8".
Definition SKIP_TIME_MS : Z := 10000.
Definition CONTROL_FADE_TIMEOUT : Z := 3000.

(** *** What the player reports *)

(** AVPlaybackStatusSuccess, the fields the screen reads.
    [durationMillis] is optional in expo-av. *)
Module Status.
Record AVPlaybackStatusSuccess : Type := {
  positionMillis : Z;
  durationMillis : option Z;
  isPlaying : bool;
  isBuffering : bool;
  didJustFinish : bool
}.
End Status.

(** AVPlaybackStatus: [status.isLoaded] selects the success record. *)
Inductive AVPlaybackStatus : Type :=
| NotLoaded
| Loaded (successStatus : Status.AVPlaybackStatusSuccess).

(** [x || 0] on a number: zero is the only falsy number represented. *)
Definition orZero (x : Z) : Z := if x =? 0 then 0 else x.

(** [x || 0] on an optional number *)
Definition orZeroOpt (x : option Z) : Z :=
  match x with
  | Some v => orZero v
  | None => 0
  end.

(** *** The component state (the [useState] cells) *)
Record State : Type := {
  currentVideoUrl : string;
  inputVideoUrl : string;
  isPlaying : bool;
  isFullscreen : bool;
  duration : Z;
  position : Z;
  volume : Q;
  isBuffering : bool;
  controlsVisible : bool;
  isSeeking : bool
}.

Definition initialState : State :=
  {| currentVideoUrl := INITIAL_HLS_URL;
     inputVideoUrl := INITIAL_HLS_URL;
     isPlaying := false;
     isFullscreen := false;
     duration := 0;
     position := 0;
     volume := 1%Q;
     isBuffering := false;
     controlsVisible := true;
     isSeeking := false |}.

Definition setCurrentVideoUrl (v : string) (s : State) : State :=
  {| currentVideoUrl := v; inputVideoUrl := inputVideoUrl s;
     isPlaying := isPlaying s; isFullscreen := isFullscreen s;
     duration := duration s; position := position s; volume := volume s;
     isBuffering := isBuffering s; controlsVisible := controlsVisible s;
     isSeeking := isSeeking s |}.

Definition setInputVideoUrl (v : string) (s : State) : State :=
  {| currentVideoUrl := currentVideoUrl s; inputVideoUrl := v;
     isPlaying := isPlaying s; isFullscreen := isFullscreen s;
     duration := duration s; position := position s; volume := volume s;
     isBuffering := isBuffering s; controlsVisible := controlsVisible s;
     isSeeking := isSeeking s |}.

Definition setIsPlaying (v : bool) (s : State) : State :=
  {| currentVideoUrl := currentVideoUrl s; inputVideoUrl := inputVideoUrl s;
     isPlaying := v; isFullscreen := isFullscreen s;
     duration := duration s; position := position s; volume := volume s;
     isBuffering := isBuffering s; controlsVisible := controlsVisible s;
     isSeeking := isSeeking s |}.

Definition setIsFullscreen (v : bool) (s : State) : State :=
  {| currentVideoUrl := currentVideoUrl s; inputVideoUrl := inputVideoUrl s;
     isPlaying := isPlaying s; isFullscreen := v;
     duration := duration s; position := position s; volume := volume s;
     isBuffering := isBuffering s; controlsVisible := controlsVisible s;
     isSeeking := isSeeking s |}.

Definition setDuration (v : Z) (s : State) : State :=
  {| currentVideoUrl := currentVideoUrl s; inputVideoUrl := inputVideoUrl s;
     isPlaying := isPlaying s; isFullscreen := isFullscreen s;
     duration := v; position := position s; volume := volume s;
     isBuffering := isBuffering s; controlsVisible := controlsVisible s;
     isSeeking := isSeeking s |}.

Definition setPosition (v : Z) (s : State) : State :=
  {| currentVideoUrl := currentVideoUrl s; inputVideoUrl := inputVideoUrl s;
     isPlaying := isPlaying s; isFullscreen := isFullscreen s;
     duration := duration s; position := v; volume := volume s;
     isBuffering := isBuffering s; controlsVisible := controlsVisible s;
     isSeeking := isSeeking s |}.

Definition setIsBuffering (v : bool) (s : State) : State :=
  {| currentVideoUrl := currentVideoUrl s; inputVideoUrl := inputVideoUrl s;
     isPlaying := isPlaying s; isFullscreen := isFullscreen s;
     duration := duration s; position := position s; volume := volume s;
     isBuffering := v; controlsVisible := controlsVisible s;
     isSeeking := isSeeking s |}.

Definition setControlsVisible (v : bool) (s : State) : State :=
  {| currentVideoUrl := currentVideoUrl s; inputVideoUrl := inputVideoUrl s;
     isPlaying := isPlaying s; isFullscreen := isFullscreen s;
     duration := duration s; position := position s; volume := volume s;
     isBuffering := isBuffering s; controlsVisible := v;
     isSeeking := isSeeking s |}.

Definition setIsSeeking (v : bool) (s : State) : State :=
  {| currentVideoUrl := currentVideoUrl s; inputVideoUrl := inputVideoUrl s;
     isPlaying := isPlaying s; isFullscreen := isFullscreen s;
     duration := duration s; position := position s; volume := volume s;
     isBuffering := isBuffering s; controlsVisible := controlsVisible s;
     isSeeking := v |}.

(** *** Commands sent to the collaborators *)
Inductive OrientationLock : Type := LANDSCAPE_LEFT | PORTRAIT.

Inductive Command : Type :=
| pauseAsync
| playAsync
| setPositionAsync (positionMillis : Z)
| lockAsync (orientation : OrientationLock)
| alert (title message : string).

(** Completion callbacks given to [Animated.timing(fadeAnim, ..).start]:
    the one of [fadeInControls], which closes over the [isPlaying] of the
    render that created it, and the one of [fadeOutControls]. *)
Inductive EndCallback : Type :=
| armHideTimerIf (isPlaying : bool)
| hideControls.

(** *** The screen instance: state cells, refs, host timers, command log *)
Record World : Type := {
  ui : State;
  (** [videoRef.current] is set *)
  videoRef : bool;
  (** [hideControlsTimer.current] *)
  hideControlsTimer : option nat;
  (** timeouts armed and neither fired nor cleared; each runs
      [fadeOutControls] *)
  timers : list nat;
  nextTimer : nat;
  (** the animation running on [fadeAnim], with its completion callback *)
  fadeAnim : option EndCallback;
  (** commands issued so far, oldest first *)
  issued : list Command
}.

Definition Action : Type := World -> World.

Definition andThen (a b : Action) : Action := fun w => b (a w).
Notation "a ;; b" := (andThen a b) (at level 61, left associativity).

Definition skip : Action := fun w => w.

Definition setState (f : State -> State) : Action := fun w =>
  {| ui := f (ui w); videoRef := videoRef w;
     hideControlsTimer := hideControlsTimer w; timers := timers w;
     nextTimer := nextTimer w; fadeAnim := fadeAnim w; issued := issued w |}.

Definition issue (c : Command) : Action := fun w =>
  {| ui := ui w; videoRef := videoRef w;
     hideControlsTimer := hideControlsTimer w; timers := timers w;
     nextTimer := nextTimer w; fadeAnim := fadeAnim w;
     issued := issued w ++ [c] |}.

(** [if (videoRef.current) { .. }] and [videoRef.current?. ..] *)
Definition whenVideo (a : Action) : Action := fun w =>
  if videoRef w then a w else w.

(** [clearTimeout(id)] *)
Definition clearTimeout (id : nat) : Action := fun w =>
  {| ui := ui w; videoRef := videoRef w;
     hideControlsTimer := hideControlsTimer w;
     timers := List.remove Nat.eq_dec id (timers w);
     nextTimer := nextTimer w; fadeAnim := fadeAnim w; issued := issued w |}.

(** [if (hideControlsTimer.current) { clearTimeout(hideControlsTimer.current); }]
    The ref keeps the handle it held. *)
Definition clearHideControlsTimer : Action := fun w =>
  match hideControlsTimer w with
  | Some id => clearTimeout id w
  | None => w
  end.

(** [hideControlsTimer.current = setTimeout(fadeOutControls, CONTROL_FADE_TIMEOUT)] *)
Definition armHideControlsTimer : Action := fun w =>
  {| ui := ui w; videoRef := videoRef w;
     hideControlsTimer := Some (nextTimer w);
     timers := timers w ++ [nextTimer w];
     nextTimer := S (nextTimer w); fadeAnim := fadeAnim w; issued := issued w |}.

Definition setFadeAnim (a : option EndCallback) : Action := fun w =>
  {| ui := ui w; videoRef := videoRef w;
     hideControlsTimer := hideControlsTimer w; timers := timers w;
     nextTimer := nextTimer w; fadeAnim := a; issued := issued w |}.

Definition runEndCallback (cb : EndCallback) : Action :=
  match cb with
  | armHideTimerIf playing => if playing then armHideControlsTimer else skip
  | hideControls => setState (setControlsVisible false)
  end.

(** [Animated.timing(fadeAnim, ..).start(cb)].  React Native's contract:
    starting an animation on a value stops the one running on it, whose
    callback is then invoked (with [finished: false], which the screen's
    callbacks do not look at); the new animation runs until
    [animationEnd]. *)
Definition startTiming (cb : EndCallback) : Action := fun w =>
  match fadeAnim w with
  | Some interrupted => (setFadeAnim None ;; runEndCallback interrupted ;; setFadeAnim (Some cb)) w
  | None => setFadeAnim (Some cb) w
  end.

(** *** Control fade logic *)
Definition fadeOutControls : Action := startTiming hideControls.

(** [s] is the state of the render whose closure is called. *)
Definition fadeInControls (s : State) : Action :=
  clearHideControlsTimer ;;
  setState (setControlsVisible true) ;;
  startTiming (armHideTimerIf (isPlaying s)).

(** *** Playback handlers *)
Definition handlePlaybackStatusUpdate (s : State) (status : AVPlaybackStatus) : Action :=
  match status with
  | NotLoaded => skip
  | Loaded successStatus =>
      (if negb (isSeeking s)
       then setState (setPosition (orZero (Status.positionMillis successStatus)))
       else skip) ;;
      setState (setIsPlaying (Status.isPlaying successStatus)) ;;
      setState (setDuration (orZeroOpt (Status.durationMillis successStatus))) ;;
      setState (setIsBuffering (Status.isBuffering successStatus)) ;;
      (if Status.didJustFinish successStatus
       then setState (setIsPlaying false) ;; whenVideo (issue (setPositionAsync 0))
       else skip)
  end.

Definition handleSeekStart : Action :=
  setState (setIsSeeking true) ;; whenVideo (issue pauseAsync).

Definition handleSeek (s : State) (newPosition : Z) : Action :=
  whenVideo (issue (setPositionAsync newPosition) ;;
             setState (setPosition newPosition) ;;
             fadeInControls s).

(** The argument of [onSlidingComplete]: a number, or an array of numbers
    of which the handler takes the first (an empty array, whose first
    element is [undefined], is not represented).  The scrub [Slider] is
    rendered with [minimumValue={0}] and [maximumValue={duration}], so the
    values it releases lie in that range ([sliderRange] below); they are
    whole milliseconds here, as every number of the model, and the
    handlers pass them on without any arithmetic. *)
Inductive SliderValue : Type :=
| number (v : Z)
| array (first : Z) (rest : list Z).

Definition handleSeekComplete (s : State) (value : SliderValue) : Action :=
  let newPosition :=
    match value with
    | array first _ => first
    | number v => v
    end in
  handleSeek s newPosition ;;
  whenVideo (issue playAsync) ;;
  setState (setIsSeeking false).

Inductive Direction : Type := forward | backward.

Definition handleSkip (s : State) (direction : Direction) : Action :=
  whenVideo
    (let newPosition :=
       match direction with
       | forward => Z.min (position s + SKIP_TIME_MS) (duration s)
       | backward => Z.max (position s - SKIP_TIME_MS) 0
       end in
     issue (setPositionAsync newPosition) ;;
     setState (setPosition newPosition) ;;
     fadeInControls s).

Definition WILL_PRESENT : Z := 1.
Definition WILL_DISMISS : Z := 2.

(** [fullscreenUpdate] is [event.fullscreenUpdate]. *)
Definition handleFullscreenUpdate (s : State) (fullscreenUpdate : Z) : Action :=
  (if fullscreenUpdate =? WILL_PRESENT
   then setState (setIsFullscreen true) ;; issue (lockAsync LANDSCAPE_LEFT)
   else if fullscreenUpdate =? WILL_DISMISS
   then setState (setIsFullscreen false) ;; issue (lockAsync PORTRAIT)
   else skip) ;;
  fadeInControls s.

Definition handleUrlChange (s : State) : Action :=
  if (10 <? Z.of_nat (String.length (trim (inputVideoUrl s))))
     && includes "http" (inputVideoUrl s)
  then
    setState (setCurrentVideoUrl (inputVideoUrl s)) ;;
    setState (setIsPlaying false) ;;
    setState (setDuration 0) ;;
    setState (setPosition 0) ;;
    issue (alert "URL Changed" "New stream source loaded.")
  else
    issue (alert "Invalid URL" "Please enter a valid stream URL.").

(** *** The event loop *)

(** What the host delivers to the screen. *)
Inductive Event : Type :=
| onPlaybackStatusUpdate (status : AVPlaybackStatus)
| onSlidingStart
| onSlidingComplete (value : SliderValue)
| pressSkip (direction : Direction)
| onFullscreenUpdate (fullscreenUpdate : Z)
| onChangeText (text : string)
| pressLoadStream
| animationEnd
| timerFired (id : nat).

Definition idPending (id : nat) (w : World) : bool :=
  existsb (Nat.eqb id) (timers w).

(** The handler closures belong to the render of the state [s]. *)
Definition handle (s : State) (e : Event) : Action :=
  match e with
  | onPlaybackStatusUpdate status => handlePlaybackStatusUpdate s status
  | onSlidingStart => handleSeekStart
  | onSlidingComplete value => handleSeekComplete s value
  | pressSkip direction => handleSkip s direction
  | onFullscreenUpdate fullscreenUpdate => handleFullscreenUpdate s fullscreenUpdate
  | onChangeText text => setState (setInputVideoUrl text)
  | pressLoadStream => handleUrlChange s
  | animationEnd => fun w =>
      match fadeAnim w with
      | Some cb => (setFadeAnim None ;; runEndCallback cb) w
      | None => w
      end
  | timerFired id => fun w =>
      if idPending id w then (clearTimeout id ;; fadeOutControls) w else w
  end.

(** [useEffect(.., [isPlaying])]: when the committed [isPlaying] differs
    from the one of the previous render, the previous effect's cleanup
    runs, then the effect of the new render. *)
Definition isPlayingEffect (previous : bool) : Action := fun w =>
  if Bool.eqb previous (isPlaying (ui w)) then w
  else (clearHideControlsTimer ;; fadeInControls (ui w)) w.

(** One event: the handler of the current render runs, the component
    re-renders, the effect runs. *)
Definition step (e : Event) : Action := fun w =>
  isPlayingEffect (isPlaying (ui w)) (handle (ui w) e w).

Definition run (events : list Event) : Action := fun w =>
  fold_left (fun acc e => step e acc) events w.

(** The screen right after mounting: the effect has run once. *)
Definition mounted : World :=
  fadeInControls initialState
    {| ui := initialState; videoRef := true; hideControlsTimer := None;
       timers := []; nextTimer := 1%nat; fadeAnim := None; issued := [] |}.

(** [loadStream(url)]: the text field is set, then Load Stream pressed. *)
Definition loadStream (url : string) : list Event :=
  [onChangeText url; pressLoadStream].

(** [showControls()] called by the render of the current state, followed
    by the end of its fade-in animation. *)
Definition showControls : Action := fun w =>
  handle (ui w) animationEnd (fadeInControls (ui w) w).

Fixpoint showControlsTimes (n : nat) : Action :=
  match n with
  | O => skip
  | S k => showControls ;; showControlsTimes k
  end.

Definition clamp (lo hi x : Z) : Z := Z.max lo (Z.min hi x).

Definition countLocks (o : OrientationLock) (l : list Command) : nat :=
  List.length (filter (fun c => match c, o with
                                | lockAsync LANDSCAPE_LEFT, LANDSCAPE_LEFT => true
                                | lockAsync PORTRAIT, PORTRAIT => true
                                | _, _ => false
                                end) l).

Definition countSeeks (l : list Command) : nat :=
  List.length (filter (fun c => match c with setPositionAsync _ => true | _ => false end) l).

(** *** Vocabulary of the statements *)

(** An action of the overlay (timer and fade) logic: of the state cells it
    writes [controlsVisible] only, and it sends no command. *)
Definition overlayOnly (a : Action) : Prop :=
  forall w,
    (exists visible, ui (a w) = setControlsVisible visible (ui w))
    /\ issued (a w) = issued w
    /\ videoRef (a w) = videoRef w.

(** No fade is running and no timeout is pending but, at most, the one
    whose handle [hideControlsTimer.current] holds. *)
Definition quiet (w : World) : bool :=
  match fadeAnim w with
  | Some _ => false
  | None =>
      match timers w, hideControlsTimer w with
      | [], _ => true
      | [id], Some held => Nat.eqb id held
      | _, _ => false
      end
  end.

(** Number of [onFullscreenUpdate] events carrying the value [update]. *)
Fixpoint countUpdates (update : Z) (events : list Event) : nat :=
  match events with
  | [] => O
  | onFullscreenUpdate u :: rest =>
      ((if (u =? update)%Z then 1 else 0) + countUpdates update rest)%nat
  | _ :: rest => countUpdates update rest
  end.

(** The number that [handleSeekComplete] takes from its argument. *)
Definition committed (value : SliderValue) : Z :=
  match value with
  | array first _ => first
  | number v => v
  end.


(** [n] calls of [fadeInControls] by the render of [s] in succession, no
    fade-in having had the time to end in between. *)
Fixpoint showControlsAtOnce (n : nat) (s : State) : Action :=
  match n with
  | O => skip
  | S k => fadeInControls s ;; showControlsAtOnce k s
  end.

(** A fade-in is running and the only pending timer is the held one. *)
Definition fadingIn (w : World) : bool :=
  match fadeAnim w, timers w, hideControlsTimer w with
  | Some (armHideTimerIf true), [id], Some held => Nat.eqb id held
  | _, _, _ => false
  end.

(** The position that [handleSkip] computes. *)
Definition skipTarget (direction : Direction) (s : State) : Z :=
  match direction with
  | forward => Z.min (position s + SKIP_TIME_MS) (duration s)
  | backward => Z.max (position s - SKIP_TIME_MS) 0
  end.

(** A status tick of a loaded stream. *)
Definition tick (p : Z) (d : option Z) (playing finished : bool) : Event :=
  onPlaybackStatusUpdate
    (Loaded {| Status.positionMillis := p; Status.durationMillis := d;
               Status.isPlaying := playing; Status.isBuffering := false;
               Status.didJustFinish := finished |}).

End VideoPlayer.

(** ** services/NotificationService.ts: the tap listener *)
Module NotificationTaps.
Import NotificationService.

(** The route name of a screen of RootStackParamList. *)
Definition screenName (s : Screen) : string :=
  match s with
  | WebView => "WebView"
  | VideoPlayer => "VideoPlayer"
  end.

(** A route of the navigation state. *)
Record Route : Type := {
  route_key : string;
  route_name : string
}.

(** [String(n)] for a natural number *)
Definition decimal (n : nat) : string :=
  DecimalString.NilZero.string_of_uint (Nat.to_uint n).

(** The own index keys "0", "1", .. of an array of [len] elements. *)
Definition isIndexOf (len : nat) (key : string) : bool :=
  existsb (fun i => key =? decimal i) (seq 0 len).

Section WithPrototypes.

(** The property names that an array inherits from [Array.prototype] and
    [Object.prototype] in the host engine. *)
Variable inherited : string -> bool.

(** [key in array], for an array of [len] elements: the operator looks
    for a property of that name, not for an element of that value. *)
Definition inArray (key : string) (len : nat) : bool :=
  isIndexOf len key || (key =? "length") || inherited key.

(** The listener registered by [handleNotificationTaps], run on the data
    of the tapped notification while the navigator holds the routes
    [routes]; the result lists the calls to [navigation.navigate]. *)
Definition responseReceived (routes : list Route) (data : option NotificationData)
  : list Screen :=
  let targetScreen :=
    match data with
    | Some d => targetScreen d
    | None => None
    end in
  match targetScreen with
  | Some target =>
      if JsString.truthy (screenName target)
         && inArray (screenName target) (List.length (map route_name routes))
      then [target]
      else []
  | None => []
  end.

End WithPrototypes.

(** Names inherited by arrays, as far as the examples need them. *)
Definition someInherited (key : string) : bool :=
  (key =? "map") || (key =? "constructor") || (key =? "toString")
  || (key =? "hasOwnProperty").

End NotificationTaps.

(** ** screens/WebViewScreen.tsx *)
Module WebViewScreen.
Import JsString UrlService NotificationService.

Local Open Scope Z_scope.

Definition DEFAULT_URL : string := "https://expo.dev/".

Record NotificationConfig : Type := {
  delay : string;
  message : string;
  config_targetScreen : Screen;
  isNavigable : bool
}.

Record State : Type := {
  permissionsGranted : bool;
  inputUrl : string;
  loadedUrl : string;
  isLoading : bool;
  hasNotifiedOnLoad : bool;
  isModalVisible : bool;
  webViewError : option string;
  config : NotificationConfig
}.

Definition initialState : State :=
  {| permissionsGranted := false;
     inputUrl := DEFAULT_URL;
     loadedUrl := DEFAULT_URL;
     isLoading := false;
     hasNotifiedOnLoad := false;
     isModalVisible := false;
     webViewError := None;
     config := {| delay := "3"; message := "This is a custom notification!";
                  config_targetScreen := WebView; isNavigable := false |} |}.

Definition setPermissionsGranted (v : bool) (s : State) : State :=
  {| permissionsGranted := v; inputUrl := inputUrl s; loadedUrl := loadedUrl s;
     isLoading := isLoading s; hasNotifiedOnLoad := hasNotifiedOnLoad s;
     isModalVisible := isModalVisible s; webViewError := webViewError s;
     config := config s |}.

Definition setInputUrl (v : string) (s : State) : State :=
  {| permissionsGranted := permissionsGranted s; inputUrl := v; loadedUrl := loadedUrl s;
     isLoading := isLoading s; hasNotifiedOnLoad := hasNotifiedOnLoad s;
     isModalVisible := isModalVisible s; webViewError := webViewError s;
     config := config s |}.

Definition setLoadedUrl (v : string) (s : State) : State :=
  {| permissionsGranted := permissionsGranted s; inputUrl := inputUrl s; loadedUrl := v;
     isLoading := isLoading s; hasNotifiedOnLoad := hasNotifiedOnLoad s;
     isModalVisible := isModalVisible s; webViewError := webViewError s;
     config := config s |}.

Definition setIsLoading (v : bool) (s : State) : State :=
  {| permissionsGranted := permissionsGranted s; inputUrl := inputUrl s;
     loadedUrl := loadedUrl s;
     isLoading := v; hasNotifiedOnLoad := hasNotifiedOnLoad s;
     isModalVisible := isModalVisible s; webViewError := webViewError s;
     config := config s |}.

Definition setHasNotifiedOnLoad (v : bool) (s : State) : State :=
  {| permissionsGranted := permissionsGranted s; inputUrl := inputUrl s;
     loadedUrl := loadedUrl s;
     isLoading := isLoading s; hasNotifiedOnLoad := v;
     isModalVisible := isModalVisible s; webViewError := webViewError s;
     config := config s |}.

Definition setIsModalVisible (v : bool) (s : State) : State :=
  {| permissionsGranted := permissionsGranted s; inputUrl := inputUrl s;
     loadedUrl := loadedUrl s;
     isLoading := isLoading s; hasNotifiedOnLoad := hasNotifiedOnLoad s;
     isModalVisible := v; webViewError := webViewError s;
     config := config s |}.

Definition setWebViewError (v : option string) (s : State) : State :=
  {| permissionsGranted := permissionsGranted s; inputUrl := inputUrl s;
     loadedUrl := loadedUrl s;
     isLoading := isLoading s; hasNotifiedOnLoad := hasNotifiedOnLoad s;
     isModalVisible := isModalVisible s; webViewError := v;
     config := config s |}.

Definition setConfig (v : NotificationConfig) (s : State) : State :=
  {| permissionsGranted := permissionsGranted s; inputUrl := inputUrl s;
     loadedUrl := loadedUrl s;
     isLoading := isLoading s; hasNotifiedOnLoad := hasNotifiedOnLoad s;
     isModalVisible := isModalVisible s; webViewError := webViewError s;
     config := v |}.

(** What the screen asks of its collaborators. *)
Inductive Effect : Type :=
| alert (title message : string)
| schedule (options : ScheduleOptions).

Record World : Type := {
  ui : State;
  (** effects so far, oldest first *)
  effects : list Effect
}.

Definition Action : Type := World -> World.

Definition andThen (a b : Action) : Action := fun w => b (a w).
Notation "a ;; b" := (andThen a b) (at level 61, left associativity).

Definition skip : Action := fun w => w.

Definition setState (f : State -> State) : Action := fun w =>
  {| ui := f (ui w); effects := effects w |}.

Definition perform (e : Effect) : Action := fun w =>
  {| ui := ui w; effects := (effects w ++ [e])%list |}.

(** *** Number input of the modal *)

Definition isDigit (c : ascii) : bool :=
  let n := nat_of_ascii c in ((48 <=? n) && (n <=? 57))%nat.

Definition digitValue (c : ascii) : Z := Z.of_nat (nat_of_ascii c) - 48.

(** [text.replace(/[^0-9]/g, "")] *)
Fixpoint keepDigits (text : string) : string :=
  match text with
  | EmptyString => EmptyString
  | String c rest => if isDigit c then String c (keepDigits rest) else keepDigits rest
  end.

(** The value of the longest prefix of decimal digits; [acc] is the value
    read so far, [None] before the first digit. *)
Fixpoint digitsPrefix (s : string) (acc : option Z) : option Z :=
  match s with
  | EmptyString => acc
  | String c rest =>
      if isDigit c
      then digitsPrefix rest
             (Some (10 * match acc with Some v => v | None => 0 end + digitValue c))
      else acc
  end.

(** [parseInt(s, 10)]; [None] is NaN.  Leading white space is skipped, a
    sign is read, then the longest prefix of digits.  The value is exact
    here; a double rounds it above 2^53, which no comparison with the
    bounds 1 and 10 can see. *)
Definition parseInt (s : string) : option Z :=
  match trimStart s with
  | String "-"%char rest => option_map Z.opp (digitsPrefix rest None)
  | String "+"%char rest => digitsPrefix rest None
  | t => digitsPrefix t None
  end.

(** *** Events of the embedded browser *)

(** The fields of [nativeEvent] that the wired handlers read. *)
Record NativeEvent : Type := {
  loading : bool;
  title : string
}.

Section WithUrlConstructor.

Variable newURL : string -> option URL.

(** *** Local logic *)

(** The branch taken is that of
    [validationResult.isValid && validationResult.normalizedUrl]: the
    normalized URL is there and is not the empty string. *)

Definition loadWebView (s : State) : Action :=
  let validationResult := validateAndNormalizeUrl newURL (inputUrl s) in
  match normalizedUrl validationResult with
  | Some normalized =>
      if isValid validationResult && truthy normalized
      then
        (if negb (normalized =? loadedUrl s)%string
         then setState (setHasNotifiedOnLoad false) ;;
              setState (setWebViewError None) ;;
              setState (setLoadedUrl normalized)
         else skip) ;;
        setState (setInputUrl normalized)
      else perform (alert "Invalid URL"
                      "Please enter a valid website link (must be http/https).")
  | None => perform (alert "Invalid URL"
                       "Please enter a valid website link (must be http/https).")
  end.

Definition handleLoadingStart : Action :=
  setState (setIsLoading true) ;; setState (setWebViewError None).

Definition handleLoadingEnd (s : State) (nativeEvent : NativeEvent) : Action :=
  setState (setIsLoading false) ;;
  let isSuccessful :=
    negb (loading nativeEvent)
    && negb (title nativeEvent =? "Webpage not available")%string in
  if permissionsGranted s && negb (hasNotifiedOnLoad s) && isSuccessful
  then
    perform (schedule
      {| NotificationService.title := "App Status Update";
         body := "The website at " ++ loadedUrl s ++ " is fully loaded.";
         delaySeconds := Some 1%Q;
         data := None |}) ;;
    setState (setHasNotifiedOnLoad true)
  else skip.

Definition openModal (navigable : bool) : Action :=
  setState (setConfig
    {| delay := "3";
       message := if navigable then "Tap me to see the HLS Video Player!"
                  else "Your action was confirmed.";
       config_targetScreen := if navigable then VideoPlayer else WebView;
       isNavigable := navigable |}) ;;
  setState (setIsModalVisible true).

Definition closeModal : Action := setState (setIsModalVisible false).

Definition handleSendNotification (s : State) : Action :=
  match parseInt (delay (config s)) with
  | None => perform (alert "Invalid Delay"
                       "Please enter an integer delay between 1 and 10 seconds.")
  | Some parsedDelay =>
      if (parsedDelay <? 1) || (10 <? parsedDelay)
      then perform (alert "Invalid Delay"
                      "Please enter an integer delay between 1 and 10 seconds.")
      else if permissionsGranted s
      then
        perform (schedule
          {| NotificationService.title :=
               if isNavigable (config s) then "Custom Navigation Alert"
               else "Custom Action Alert";
             body := message (config s);
             delaySeconds := Some (inject_Z parsedDelay);
             data := Some {| targetScreen :=
                               if isNavigable (config s)
                               then Some (config_targetScreen (config s))
                               else None |} |}) ;;
        closeModal
      else perform (alert "Error" "Notification permissions not granted.")
  end.

(** *** The event loop: the handlers as the render wires them.
    [handleLoadingError], the only writer of an error message, is given to
    no component: the browser's [onError] calls [handleLoadingEnd]. *)
Inductive Event : Type :=
| permissionsResolved (granted : bool)
| onChangeUrlText (text : string)
| pressLoad
| onLoadStart
| onLoadEnd (nativeEvent : NativeEvent)
| onError (nativeEvent : NativeEvent)
| pressNotifyAndNavigate
| pressNotifyActionDone
| onChangeDelayText (text : string)
| onChangeMessageText (text : string)
| pressOption (value : Screen)
| pressCancel
| pressSend.

Definition handle (s : State) (e : Event) : Action :=
  match e with
  | permissionsResolved granted => setState (setPermissionsGranted granted)
  | onChangeUrlText text => setState (setInputUrl text)
  | pressLoad => loadWebView s
  | onLoadStart => handleLoadingStart
  | onLoadEnd nativeEvent => handleLoadingEnd s nativeEvent
  | onError nativeEvent => handleLoadingEnd s nativeEvent
  | pressNotifyAndNavigate => openModal true
  | pressNotifyActionDone => openModal false
  | onChangeDelayText text =>
      setState (setConfig
        {| delay := keepDigits text; message := message (config s);
           config_targetScreen := config_targetScreen (config s);
           isNavigable := isNavigable (config s) |})
  | onChangeMessageText text =>
      setState (setConfig
        {| delay := delay (config s); message := text;
           config_targetScreen := config_targetScreen (config s);
           isNavigable := isNavigable (config s) |})
  | pressOption value =>
      setState (setConfig
        {| delay := delay (config s); message := message (config s);
           config_targetScreen := value;
           isNavigable := isNavigable (config s) |})
  | pressCancel => closeModal
  | pressSend => handleSendNotification s
  end.

Definition step (e : Event) : Action := fun w => handle (ui w) e w.

Definition run (events : list Event) : Action := fun w =>
  fold_left (fun acc e => step e acc) events w.

End WithUrlConstructor.

Definition mounted : World := {| ui := initialState; effects := [] |}.

(** *** Vocabulary of the statements *)




(** A URL that the validator returned as valid for some input. *)
Definition vetted (newURL : string -> option URL) (u : string) : Prop :=
  exists rawUrl,
    validateAndNormalizeUrl newURL rawUrl
    = {| isValid := true; normalizedUrl := Some u |}.

(** The request of the page-loaded notification for the page [u]. *)
Definition loadedNotice (u : string) : Effect :=
  schedule {| NotificationService.title := "App Status Update";
              body := "The website at " ++ u ++ " is fully loaded.";
              delaySeconds := Some 1%Q;
              data := None |}.


(** The delay of a scheduling request is a whole number from 1 to 10. *)
Definition delayInRange (e : Effect) : Prop :=
  match e with
  | schedule options =>
      exists d : Z, delaySeconds options = Some (inject_Z d) /\ 1 <= d <= 10
  | alert _ _ => True
  end.

End WebViewScreen.

(** ** screens/VideoPlayerScreen.tsx: time labels, tap, orientation *)
Module VideoPlayerControls.
Import JsString VideoPlayer.

Local Open Scope Z_scope.

(** [String(n)] for an integer *)
Definition stringOfZ (z : Z) : string :=
  DecimalString.NilZero.string_of_int (Z.to_int z).

(** [s.padStart(2, "0")] *)
Definition padStart2 (s : string) : string :=
  match String.length s with
  | O => "00"
  | S O => "0" ++ s
  | _ => s
  end.

(** [Math.floor] of a quotient by a positive number is [Z.div]; the
    remainder operator [%] takes the sign of the dividend, as [Z.rem]. *)
Definition formatTime (ms : Z) : string :=
  if ms =? 0 then "00:00"
  else
    let totalSeconds := ms / 1000 in
    let seconds := padStart2 (stringOfZ (Z.rem totalSeconds 60)) in
    let minutes := padStart2 (stringOfZ (totalSeconds / 60)) in
    minutes ++ ":" ++ seconds.

(** [currentOpacity] is what [fadeAnim.__getValue()] returns at the tap. *)
Definition handleTap (s : State) (currentOpacity : Q) : Action :=
  if negb (controlsVisible s) || negb (Qle_bool 1 currentOpacity)
  then fadeInControls s
  else if isPlaying s then fadeOutControls
  else skip.

(** *** Vocabulary of the statements *)

Definition digitChar (d : Z) : ascii := ascii_of_nat (48 + Z.to_nat d).

(** The two decimal digits of a number below 100. *)
Definition twoDigits (n : Z) : string :=
  String (digitChar (n / 10)) (String (digitChar (n mod 10)) EmptyString).

(** The orientation asked for by the latest lock command, if any. *)
Definition lastLock (l : list Command) : option OrientationLock :=
  fold_left (fun acc c => match c with lockAsync o => Some o | _ => acc end) l None.

(** The fullscreen flag and the latest orientation lock agree. *)
Definition lockAgrees (w : World) : bool :=
  match lastLock (issued w) with
  | Some LANDSCAPE_LEFT => isFullscreen (ui w)
  | Some PORTRAIT => negb (isFullscreen (ui w))
  | None => true
  end.

(** The commands are all seeks to 0. *)
Definition onlyRewinds (l : list Command) : Prop :=
  Forall (fun c => c = setPositionAsync 0) l.

(** The condition under which [handleUrlChange] accepts the typed text. *)
Definition acceptable (text : string) : bool :=
  (10 <? Z.of_nat (String.length (trim text))) && includes "http" text.

End VideoPlayerControls.

(** * Properties *)

(** ** String primitives *)
Module JsStringFacts.
Import JsString.

Lemma trimStart_whitespaceOnly (s : string) :
  whitespaceOnly s = true -> trimStart s = EmptyString.
Proof.
  induction s as [|c rest IH]; simpl; [reflexivity|].
  intros H. apply andb_true_iff in H as [Hc Hrest].
  rewrite Hc. exact (IH Hrest).
Qed.

Lemma trim_whitespaceOnly (s : string) :
  whitespaceOnly s = true -> trim s = EmptyString.
Proof.
  intros H. unfold trim. rewrite (trimStart_whitespaceOnly s H). reflexivity.
Qed.

End JsStringFacts.

(** ** URL validation *)
Module UrlServiceFacts.
Import JsString UrlService.

Lemma classify_valid (newURL : string -> option URL) (rawUrl : string) :
  isValid (validateAndNormalizeUrl newURL rawUrl) = true ->
  exists urlObject,
    newURL (urlToTest (trim rawUrl)) = Some urlObject
    /\ (toLowerCase (protocol urlObject) = "http:"
        \/ toLowerCase (protocol urlObject) = "https:")
    /\ normalizedUrl (validateAndNormalizeUrl newURL rawUrl) = Some (href urlObject).
Proof.
  unfold validateAndNormalizeUrl.
  destruct (truthy (trim rawUrl)); simpl; [|discriminate].
  destruct (newURL (urlToTest (trim rawUrl))) as [u|]; simpl; [|discriminate].
  destruct (toLowerCase (protocol u) =? "http:") eqn:Ehttp; simpl.
  - intros _. exists u. apply String.eqb_eq in Ehttp. auto.
  - destruct (toLowerCase (protocol u) =? "https:") eqn:Ehttps; simpl; [|discriminate].
    intros _. exists u. apply String.eqb_eq in Ehttps. auto.
Qed.

(** C10.  [validateAndNormalizeUrl], for every [URL] constructor of the
    host: (1) an empty or white-space-only input yields
    [{isValid: false, normalizedUrl: null}]; (2) an input whose trimmed
    form is not empty and has no http/https scheme prefix is tested with
    "https://" prepended, so that "google.com" is accepted, with the href
    of the URL parsed from "https://google.com", whenever the constructor
    parses that address to an https URL; (3) [isValid] is true only when
    the constructor accepted the tested string and the protocol of the
    resulting URL is "http:" or "https:". *)
Theorem validateAndNormalizeUrl_contract (newURL : string -> option URL) :
  (forall rawUrl,
      whitespaceOnly rawUrl = true ->
      validateAndNormalizeUrl newURL rawUrl = rejected)
  /\ (forall rawUrl,
         truthy (trim rawUrl) = true ->
         schemeTest (trim rawUrl) = false ->
         validateAndNormalizeUrl newURL rawUrl
         = protocolCheck (newURL ("https://" ++ trim rawUrl)))
  /\ (forall urlObject,
         newURL "https://google.com" = Some urlObject ->
         toLowerCase (protocol urlObject) = "https:" ->
         validateAndNormalizeUrl newURL "google.com"
         = {| isValid := true; normalizedUrl := Some (href urlObject) |})
  /\ (forall rawUrl,
         isValid (validateAndNormalizeUrl newURL rawUrl) = true ->
         exists urlObject,
           newURL (urlToTest (trim rawUrl)) = Some urlObject
           /\ (toLowerCase (protocol urlObject) = "http:"
               \/ toLowerCase (protocol urlObject) = "https:")
           /\ normalizedUrl (validateAndNormalizeUrl newURL rawUrl)
              = Some (href urlObject)).
Proof.
  split; [|split; [|split]].
  - intros rawUrl Hws. unfold validateAndNormalizeUrl.
    rewrite (JsStringFacts.trim_whitespaceOnly rawUrl Hws). reflexivity.
  - intros rawUrl Hne Hscheme. unfold validateAndNormalizeUrl, urlToTest, protocolCheck.
    rewrite Hne, Hscheme. reflexivity.
  - intros u Hparse Hproto. unfold validateAndNormalizeUrl.
    change (trim "google.com") with "google.com".
    change (urlToTest "google.com") with "https://google.com".
    rewrite Hparse. cbn [truthy negb]. rewrite Hproto. reflexivity.
  - intros rawUrl. apply classify_valid.
Qed.

(** The service run on "google.com", on white space and on an ftp address,
    with a constructor that parses "https://google.com". *)
Lemma validateAndNormalizeUrl_contract_witness :
  validateAndNormalizeUrl googleOnly "   " = rejected
  /\ validateAndNormalizeUrl googleOnly "google.com"
     = protocolCheck (googleOnly "https://google.com")
  /\ validateAndNormalizeUrl googleOnly "google.com"
     = {| isValid := true; normalizedUrl := Some "https://google.com/" |}
  /\ exists urlObject,
       googleOnly (urlToTest (trim "google.com")) = Some urlObject
       /\ (toLowerCase (protocol urlObject) = "http:"
           \/ toLowerCase (protocol urlObject) = "https:")
       /\ normalizedUrl (validateAndNormalizeUrl googleOnly "google.com")
          = Some (href urlObject).
Proof.
  destruct (validateAndNormalizeUrl_contract googleOnly) as (Hws & Hpre & Hgoogle & Honly).
  split; [apply Hws; reflexivity|].
  split; [apply (Hpre "google.com"); reflexivity|].
  split; [apply (Hgoogle {| protocol := "https:"; href := "https://google.com/" |}); reflexivity|].
  apply Honly. reflexivity.
Defined.

End UrlServiceFacts.

(** ** Notification scheduling *)
Module NotificationServiceFacts.
Import NotificationService.

Local Open Scope Q_scope.

Lemma random_delay_range (random : Q) :
  0 <= random -> random < 1 ->
  (0 <= Qfloor (random * inject_Z (MAX_DELAY - MIN_DELAY + 1)) <= 3)%Z.
Proof.
  intros Hlo Hhi.
  change (inject_Z (MAX_DELAY - MIN_DELAY + 1)) with (inject_Z 4).
  split.
  - change 0%Z with (Qfloor (inject_Z 0)). apply Qfloor_resp_le.
    change (inject_Z 0) with (0 * inject_Z 4). apply Qmult_le_compat_r; [exact Hlo|].
    discriminate.
  - assert (Hlt : inject_Z (Qfloor (random * inject_Z 4)) < inject_Z 4).
    { apply Qle_lt_trans with (random * inject_Z 4); [apply Qfloor_le|].
      setoid_replace (inject_Z 4) with (1 * inject_Z 4) at 2 by ring.
      apply Qmult_lt_compat_r; [reflexivity|exact Hhi]. }
    rewrite <- Zlt_Qlt in Hlt. lia.
Qed.

(** C9.  [scheduleLocalNotification]: when [delaySeconds] is provided the
    delay of the scheduled trigger is that value; when it is omitted the
    delay is an integer between 2 and 5 (both included), for every value
    that [Math.random()] can return. *)
Theorem scheduleLocalNotification_delay (random : Q) (options : ScheduleOptions) :
  0 <= random -> random < 1 ->
  (forall custom,
      delaySeconds options = Some custom ->
      seconds (trigger (scheduleLocalNotification random options)) = custom)
  /\ (delaySeconds options = None ->
      exists k : Z,
        seconds (trigger (scheduleLocalNotification random options)) = inject_Z k
        /\ (2 <= k <= 5)%Z).
Proof.
  intros Hlo Hhi. unfold scheduleLocalNotification. split.
  - intros custom Hsome. rewrite Hsome. reflexivity.
  - intros Hnone. rewrite Hnone. cbn [seconds trigger].
    eexists. split; [reflexivity|].
    pose proof (random_delay_range random Hlo Hhi) as Hrange.
    generalize dependent (Qfloor (random * inject_Z (MAX_DELAY - MIN_DELAY + 1))).
    intros k Hk. unfold MIN_DELAY. lia.
Qed.

(** A call that omits the delay, with the draw 3/4, and one asking for
    one second. *)
Lemma scheduleLocalNotification_delay_witness :
  (seconds (trigger (scheduleLocalNotification (3 # 4)
      {| title := "Page loaded"; body := "ready";
         delaySeconds := Some 1; data := None |})) = 1)
  /\ exists k : Z,
       seconds (trigger (scheduleLocalNotification (3 # 4)
         {| title := "Page loaded"; body := "ready";
            delaySeconds := None; data := None |})) = inject_Z k
       /\ (2 <= k <= 5)%Z.
Proof.
  split.
  - apply (scheduleLocalNotification_delay (3 # 4)
             {| title := "Page loaded"; body := "ready";
                delaySeconds := Some 1; data := None |});
      [discriminate|reflexivity|reflexivity].
  - apply (scheduleLocalNotification_delay (3 # 4)
             {| title := "Page loaded"; body := "ready";
                delaySeconds := None; data := None |});
      [discriminate|reflexivity|reflexivity].
Defined.

End NotificationServiceFacts.

(** ** The playback control coordinator *)
Module VideoPlayerFacts.
Import JsString VideoPlayer.

Local Open Scope list_scope.
Local Open Scope Z_scope.

(** *** The overlay logic leaves playback state and commands alone *)

Lemma setControlsVisible_same (s : State) :
  setControlsVisible (controlsVisible s) s = s.
Proof. destruct s; reflexivity. Qed.

Lemma overlay_skip : overlayOnly skip.
Proof.
  intros w. unfold skip. repeat split.
  exists (controlsVisible (ui w)). symmetry. apply setControlsVisible_same.
Qed.

Lemma overlay_andThen (a b : Action) :
  overlayOnly a -> overlayOnly b -> overlayOnly (a ;; b).
Proof.
  intros Ha Hb w. unfold andThen.
  destruct (Ha w) as ((va & Hua) & Hia & Hra).
  destruct (Hb (a w)) as ((vb & Hub) & Hib & Hrb).
  repeat split; [|congruence|congruence].
  exists vb. rewrite Hub, Hua. reflexivity.
Qed.

Lemma overlay_setVisible (v : bool) : overlayOnly (setState (setControlsVisible v)).
Proof. intros w. repeat split. exists v. reflexivity. Qed.

Lemma overlay_clearTimeout (id : nat) : overlayOnly (clearTimeout id).
Proof. intros w. apply (overlay_skip w). Qed.

Lemma overlay_clearHideControlsTimer : overlayOnly clearHideControlsTimer.
Proof.
  intros w. unfold clearHideControlsTimer.
  destruct (hideControlsTimer w); [apply overlay_clearTimeout|apply overlay_skip].
Qed.

Lemma overlay_armHideControlsTimer : overlayOnly armHideControlsTimer.
Proof. intros w. apply (overlay_skip w). Qed.

Lemma overlay_setFadeAnim (a : option EndCallback) : overlayOnly (setFadeAnim a).
Proof. intros w. apply (overlay_skip w). Qed.

Lemma overlay_runEndCallback (cb : EndCallback) : overlayOnly (runEndCallback cb).
Proof.
  destruct cb as [[|]|]; simpl.
  - apply overlay_armHideControlsTimer.
  - apply overlay_skip.
  - apply overlay_setVisible.
Qed.

Create HintDb overlay.

#[local] Hint Resolve overlay_skip overlay_andThen overlay_setVisible
  overlay_clearTimeout overlay_clearHideControlsTimer
  overlay_armHideControlsTimer overlay_setFadeAnim overlay_runEndCallback
  : overlay.

Lemma overlay_startTiming (cb : EndCallback) : overlayOnly (startTiming cb).
Proof.
  intros w. unfold startTiming. destruct (fadeAnim w) as [interrupted|].
  - revert w. change (overlayOnly (setFadeAnim None ;; runEndCallback interrupted ;; setFadeAnim (Some cb))).
    auto with overlay.
  - apply overlay_setFadeAnim.
Qed.

#[local] Hint Resolve overlay_startTiming : overlay.

Lemma overlay_fadeOutControls : overlayOnly fadeOutControls.
Proof. unfold fadeOutControls. auto with overlay. Qed.

Lemma overlay_fadeInControls (s : State) : overlayOnly (fadeInControls s).
Proof. unfold fadeInControls. auto with overlay. Qed.

#[local] Hint Resolve overlay_fadeOutControls overlay_fadeInControls : overlay.

Lemma overlay_isPlayingEffect (previous : bool) : overlayOnly (isPlayingEffect previous).
Proof.
  intros w. unfold isPlayingEffect.
  destruct (Bool.eqb previous (isPlaying (ui w))); [apply overlay_skip|].
  exact (overlay_andThen _ _ overlay_clearHideControlsTimer
           (overlay_fadeInControls (ui w)) w).
Qed.

Lemma overlay_animationEnd (s : State) : overlayOnly (handle s animationEnd).
Proof.
  intros w. cbn [handle]. destruct (fadeAnim w) as [cb|]; [|apply overlay_skip].
  exact (overlay_andThen _ _ (overlay_setFadeAnim None) (overlay_runEndCallback cb) w).
Qed.

Lemma overlay_timerFired (s : State) (id : nat) : overlayOnly (handle s (timerFired id)).
Proof.
  intros w. cbn [handle]. destruct (idPending id w); [|apply overlay_skip].
  exact (overlay_andThen _ _ (overlay_clearTimeout id) overlay_fadeOutControls w).
Qed.

Ltac overlay_field w :=
  let H := fresh "H" in
  let v := fresh "v" in
  let Hu := fresh "Hu" in
  intros H; destruct (H w) as ((v & Hu) & _ & _); rewrite Hu; reflexivity.

Lemma overlay_position a w : overlayOnly a -> position (ui (a w)) = position (ui w).
Proof. overlay_field w. Qed.

Lemma overlay_duration a w : overlayOnly a -> duration (ui (a w)) = duration (ui w).
Proof. overlay_field w. Qed.

Lemma overlay_isPlaying a w : overlayOnly a -> isPlaying (ui (a w)) = isPlaying (ui w).
Proof. overlay_field w. Qed.

Lemma overlay_isBuffering a w : overlayOnly a -> isBuffering (ui (a w)) = isBuffering (ui w).
Proof. overlay_field w. Qed.

Lemma overlay_isSeeking a w : overlayOnly a -> isSeeking (ui (a w)) = isSeeking (ui w).
Proof. overlay_field w. Qed.

Lemma overlay_isFullscreen a w : overlayOnly a -> isFullscreen (ui (a w)) = isFullscreen (ui w).
Proof. overlay_field w. Qed.

Lemma overlay_currentVideoUrl a w :
  overlayOnly a -> currentVideoUrl (ui (a w)) = currentVideoUrl (ui w).
Proof. overlay_field w. Qed.

Lemma overlay_issued a w : overlayOnly a -> issued (a w) = issued w.
Proof. intros H. apply (H w). Qed.

Lemma overlay_videoRef a w : overlayOnly a -> videoRef (a w) = videoRef w.
Proof. intros H. apply (H w). Qed.

(** Rewrites away every overlay action applied under a projection. *)
Ltac frame_overlay :=
  repeat first
    [ rewrite (overlay_position _ _ (overlay_isPlayingEffect _))
    | rewrite (overlay_duration _ _ (overlay_isPlayingEffect _))
    | rewrite (overlay_isPlaying _ _ (overlay_isPlayingEffect _))
    | rewrite (overlay_isBuffering _ _ (overlay_isPlayingEffect _))
    | rewrite (overlay_isSeeking _ _ (overlay_isPlayingEffect _))
    | rewrite (overlay_isFullscreen _ _ (overlay_isPlayingEffect _))
    | rewrite (overlay_currentVideoUrl _ _ (overlay_isPlayingEffect _))
    | rewrite (overlay_issued _ _ (overlay_isPlayingEffect _))
    | rewrite (overlay_videoRef _ _ (overlay_isPlayingEffect _))
    | rewrite (overlay_position _ _ (overlay_fadeInControls _))
    | rewrite (overlay_duration _ _ (overlay_fadeInControls _))
    | rewrite (overlay_isPlaying _ _ (overlay_fadeInControls _))
    | rewrite (overlay_isBuffering _ _ (overlay_fadeInControls _))
    | rewrite (overlay_isSeeking _ _ (overlay_fadeInControls _))
    | rewrite (overlay_isFullscreen _ _ (overlay_fadeInControls _))
    | rewrite (overlay_currentVideoUrl _ _ (overlay_fadeInControls _))
    | rewrite (overlay_issued _ _ (overlay_fadeInControls _))
    | rewrite (overlay_videoRef _ _ (overlay_fadeInControls _)) ].

Lemma orZero_id (x : Z) : orZero x = x.
Proof. unfold orZero. destruct (Z.eqb_spec x 0); congruence. Qed.

Lemma run_app (l1 l2 : list Event) (w : World) :
  run (l1 ++ l2) w = run l2 (run l1 w).
Proof. unfold run. apply fold_left_app. Qed.

Lemma run_cons (e : Event) (l : list Event) (w : World) :
  run (e :: l) w = run l (step e w).
Proof. reflexivity. Qed.

(** *** Status ticks *)

Lemma tick_isSeeking (status : AVPlaybackStatus) (w : World) :
  isSeeking (ui (step (onPlaybackStatusUpdate status) w)) = isSeeking (ui w).
Proof.
  unfold step. frame_overlay. destruct status as [|s]; [reflexivity|].
  cbn [handle]. unfold handlePlaybackStatusUpdate, andThen, whenVideo, skip.
  destruct (isSeeking (ui w)) eqn:E, (Status.didJustFinish s); cbn;
    try destruct (videoRef w); cbn; auto.
Qed.

Lemma ticks_isSeeking (ticks : list AVPlaybackStatus) (w : World) :
  isSeeking (ui (run (map onPlaybackStatusUpdate ticks) w)) = isSeeking (ui w).
Proof.
  revert w. induction ticks as [|t ticks IH]; intros w; [reflexivity|].
  cbn [map]. rewrite run_cons, IH. apply tick_isSeeking.
Qed.

Lemma tick_position_idle (s : Status.AVPlaybackStatusSuccess) (w : World) :
  isSeeking (ui w) = false ->
  position (ui (step (onPlaybackStatusUpdate (Loaded s)) w)) = Status.positionMillis s.
Proof.
  intros Hidle. unfold step. frame_overlay.
  cbn [handle]. unfold handlePlaybackStatusUpdate, andThen, whenVideo, skip.
  rewrite Hidle. destruct (Status.didJustFinish s); cbn;
    try destruct (videoRef w); cbn; apply orZero_id.
Qed.

Lemma tick_position_seeking (status : AVPlaybackStatus) (w : World) :
  isSeeking (ui w) = true ->
  position (ui (step (onPlaybackStatusUpdate status) w)) = position (ui w).
Proof.
  intros Hseek. unfold step. frame_overlay. destruct status as [|s]; [reflexivity|].
  cbn [handle]. unfold handlePlaybackStatusUpdate, andThen, whenVideo, skip.
  rewrite Hseek. destruct (Status.didJustFinish s); cbn;
    try destruct (videoRef w); reflexivity.
Qed.

Lemma tick_fields (s : Status.AVPlaybackStatusSuccess) (w : World) :
  let w' := step (onPlaybackStatusUpdate (Loaded s)) w in
  duration (ui w') = orZeroOpt (Status.durationMillis s)
  /\ isBuffering (ui w') = Status.isBuffering s
  /\ isPlaying (ui w')
     = (if Status.didJustFinish s then false else Status.isPlaying s).
Proof.
  cbv zeta. unfold step. frame_overlay.
  cbn [handle]. unfold handlePlaybackStatusUpdate, andThen, whenVideo, skip.
  destruct (isSeeking (ui w)), (Status.didJustFinish s); cbn;
    try destruct (videoRef w); cbn; auto.
Qed.

(** C1, as the claim states it, fails: a tick reporting position 5000 of
    a stream of duration 1000, with no seek gesture active, leaves 5000 on
    display, not the 1000 that clamping to [0, duration] gives. *)
Lemma status_tick_position_not_clamped :
  isSeeking (ui mounted) = false
  /\ duration (ui (run [tick 5000 (Some 1000) true false] mounted)) = 1000
  /\ position (ui (run [tick 5000 (Some 1000) true false] mounted)) = 5000
  /\ position (ui (run [tick 5000 (Some 1000) true false] mounted))
     <> clamp 0 (duration (ui (run [tick 5000 (Some 1000) true false] mounted))) 5000.
Proof. repeat split. vm_compute. discriminate. Qed.

(** C1, amended.  For every sequence of status ticks processed while no
    seek gesture is active, the displayed position after a tick of a
    loaded stream is that tick's positionMillis as reported, without
    clamping (so it is the clamped value exactly for the ticks that report
    a position within [0, duration]); a tick of a stream that is not loaded
    leaves the displayed position as it was. *)
Theorem status_ticks_position_as_reported
  (w : World) (ticks : list AVPlaybackStatus) (s : Status.AVPlaybackStatusSuccess) :
  isSeeking (ui w) = false ->
  position (ui (run (map onPlaybackStatusUpdate (ticks ++ [Loaded s])) w))
  = Status.positionMillis s
  /\ (0 <= Status.positionMillis s <= orZeroOpt (Status.durationMillis s) ->
      position (ui (run (map onPlaybackStatusUpdate (ticks ++ [Loaded s])) w))
      = clamp 0 (duration (ui (run (map onPlaybackStatusUpdate (ticks ++ [Loaded s])) w)))
          (Status.positionMillis s))
  /\ position (ui (run (map onPlaybackStatusUpdate (ticks ++ [NotLoaded])) w))
     = position (ui (run (map onPlaybackStatusUpdate ticks) w)).
Proof.
  intros Hidle.
  rewrite !map_app, !run_app. cbn [map]. rewrite !run_cons. cbn [run fold_left].
  pose proof (ticks_isSeeking ticks w) as Hstill. rewrite Hidle in Hstill.
  set (w1 := run (map onPlaybackStatusUpdate ticks) w) in *.
  pose proof (tick_position_idle s w1 Hstill) as Hpos.
  destruct (tick_fields s w1) as (Hdur & _ & _).
  split; [exact Hpos|]. split.
  - intros Hin. rewrite Hpos, Hdur. unfold clamp. lia.
  - unfold step. frame_overlay. reflexivity.
Qed.

(** Two ticks after mounting: the second reports 5000 of 120000. *)
Lemma status_ticks_position_as_reported_witness :
  isSeeking (ui mounted) = false
  /\ position (ui (run (map onPlaybackStatusUpdate
         ([NotLoaded] ++
          [Loaded {| Status.positionMillis := 5000; Status.durationMillis := Some 120000;
                     Status.isPlaying := true; Status.isBuffering := false;
                     Status.didJustFinish := false |}])) mounted)) = 5000.
Proof.
  split; [reflexivity|].
  exact (proj1 (status_ticks_position_as_reported mounted [NotLoaded]
           {| Status.positionMillis := 5000; Status.durationMillis := Some 120000;
              Status.isPlaying := true; Status.isBuffering := false;
              Status.didJustFinish := false |} eq_refl)).
Defined.

(** While a seek gesture is active, status ticks leave the displayed
    position as it was and the gesture active, whatever they report and
    however many arrive; the duration, isBuffering and isPlaying cells
    still take the values of the latest tick of a loaded stream
    (isPlaying being forced to false by a tick that reports
    didJustFinish). *)
Lemma seeking_ticks_keep_position (w : World) (ticks : list AVPlaybackStatus) :
  isSeeking (ui w) = true ->
  position (ui (run (map onPlaybackStatusUpdate ticks) w)) = position (ui w)
  /\ isSeeking (ui (run (map onPlaybackStatusUpdate ticks) w)) = true
  /\ forall s : Status.AVPlaybackStatusSuccess,
       duration (ui (run (map onPlaybackStatusUpdate (ticks ++ [Loaded s])) w))
       = orZeroOpt (Status.durationMillis s)
       /\ isBuffering (ui (run (map onPlaybackStatusUpdate (ticks ++ [Loaded s])) w))
          = Status.isBuffering s
       /\ isPlaying (ui (run (map onPlaybackStatusUpdate (ticks ++ [Loaded s])) w))
          = (if Status.didJustFinish s then false else Status.isPlaying s).
Proof.
  intros Hseek. split; [|split].
  - revert w Hseek. induction ticks as [|t ticks IH]; intros w Hseek; [reflexivity|].
    cbn [map]. rewrite run_cons, IH.
    + apply tick_position_seeking. exact Hseek.
    + rewrite tick_isSeeking. exact Hseek.
  - rewrite ticks_isSeeking. exact Hseek.
  - intros s. rewrite map_app, run_app. cbn [map]. rewrite run_cons. cbn [run fold_left].
    apply tick_fields.
Qed.

(** The slider is pressed at position 5000, then two ticks arrive. *)
Lemma seeking_ticks_keep_position_witness :
  isSeeking (ui (run [tick 5000 (Some 120000) true false; onSlidingStart] mounted)) = true
  /\ position (ui (run (map onPlaybackStatusUpdate
         [Loaded {| Status.positionMillis := 6000; Status.durationMillis := Some 120000;
                    Status.isPlaying := false; Status.isBuffering := true;
                    Status.didJustFinish := false |};
          Loaded {| Status.positionMillis := 7000; Status.durationMillis := Some 120000;
                    Status.isPlaying := false; Status.isBuffering := false;
                    Status.didJustFinish := false |}])
         (run [tick 5000 (Some 120000) true false; onSlidingStart] mounted)))
     = 5000.
Proof.
  split; [reflexivity|].
  exact (proj1 (seeking_ticks_keep_position
           (run [tick 5000 (Some 120000) true false; onSlidingStart] mounted) _ eq_refl)).
Defined.

(** C7.  A status tick whose didJustFinish flag is set leaves isPlaying
    false and sends the player exactly one command, a seek to 0 (the
    player being mounted, as it is whenever it reports its status). *)
Theorem didJustFinish_rewinds (w : World) (s : Status.AVPlaybackStatusSuccess) :
  videoRef w = true ->
  Status.didJustFinish s = true ->
  isPlaying (ui (step (onPlaybackStatusUpdate (Loaded s)) w)) = false
  /\ issued (step (onPlaybackStatusUpdate (Loaded s)) w)
     = issued w ++ [setPositionAsync 0]
  /\ countSeeks (issued (step (onPlaybackStatusUpdate (Loaded s)) w))
     = S (countSeeks (issued w)).
Proof.
  intros Href Hfin.
  assert (Hissued : issued (step (onPlaybackStatusUpdate (Loaded s)) w)
                    = issued w ++ [setPositionAsync 0]).
  { unfold step. frame_overlay.
    cbn [handle]. unfold handlePlaybackStatusUpdate, andThen, whenVideo, skip.
    rewrite Hfin. destruct (isSeeking (ui w)); cbn; rewrite Href; reflexivity. }
  split; [|split].
  - destruct (tick_fields s w) as (_ & _ & Hplaying). rewrite Hplaying, Hfin. reflexivity.
  - exact Hissued.
  - rewrite Hissued. unfold countSeeks. rewrite filter_app, length_app. cbn. lia.
Qed.

(** The stream of duration 120000 reports its end while playing. *)
Lemma didJustFinish_rewinds_witness :
  videoRef mounted = true
  /\ isPlaying (ui (step (tick 120000 (Some 120000) true true) mounted)) = false
  /\ issued (step (tick 120000 (Some 120000) true true) mounted) = [setPositionAsync 0].
Proof.
  split; [reflexivity|].
  destruct (didJustFinish_rewinds mounted
              {| Status.positionMillis := 120000; Status.durationMillis := Some 120000;
                 Status.isPlaying := true; Status.isBuffering := false;
                 Status.didJustFinish := true |} eq_refl eq_refl) as (Hplaying & Hissued & _).
  split; [exact Hplaying|exact Hissued].
Defined.

Lemma step_videoRef (e : Event) (w : World) : videoRef (step e w) = videoRef w.
Proof.
  unfold step. frame_overlay. destruct e.
  - destruct status as [|s]; [reflexivity|].
    cbn [handle]. unfold handlePlaybackStatusUpdate, andThen, whenVideo, skip.
    destruct (isSeeking (ui w)), (Status.didJustFinish s); cbn;
      try destruct (videoRef w) eqn:Href; cbn; auto.
  - cbn [handle]. unfold handleSeekStart, andThen, whenVideo. cbn.
    destruct (videoRef w) eqn:Href; cbn; auto.
  - cbn [handle]. unfold handleSeekComplete, handleSeek, andThen.
    unfold whenVideo at 2. destruct (videoRef w) eqn:Href.
    + unfold whenVideo. frame_overlay. cbn. rewrite Href. cbn. frame_overlay. cbn. exact Href.
    + unfold whenVideo. rewrite Href. cbn. exact Href.
  - cbn [handle]. unfold handleSkip, whenVideo, andThen.
    destruct (videoRef w) eqn:Href; [|exact Href]. frame_overlay. cbn. exact Href.
  - cbn [handle]. unfold handleFullscreenUpdate, andThen. frame_overlay.
    destruct (fullscreenUpdate =? WILL_PRESENT); [reflexivity|].
    destruct (fullscreenUpdate =? WILL_DISMISS); reflexivity.
  - reflexivity.
  - cbn [handle]. unfold handleUrlChange, andThen.
    destruct ((10 <? Z.of_nat (String.length (trim (inputVideoUrl (ui w)))))
              && includes "http" (inputVideoUrl (ui w))); reflexivity.
  - apply (overlay_videoRef (handle (ui w) animationEnd) w), overlay_animationEnd.
  - apply (overlay_videoRef (handle (ui w) (timerFired id)) w), overlay_timerFired.
Qed.

(** The player stays mounted: no event of the screen unsets [videoRef]. *)
Lemma run_videoRef (events : list Event) (w : World) :
  videoRef (run events w) = videoRef w.
Proof.
  revert w. induction events as [|e events IH]; intros w; [reflexivity|].
  rewrite run_cons, IH. apply step_videoRef.
Qed.

(** *** Seek commit *)

Lemma countSeeks_app (l1 l2 : list Command) :
  countSeeks (l1 ++ l2) = (countSeeks l1 + countSeeks l2)%nat.
Proof. unfold countSeeks. rewrite filter_app, length_app. reflexivity. Qed.

Lemma handleSeekComplete_mounted (s : State) (value : SliderValue) (w : World) :
  videoRef w = true ->
  issued (handleSeekComplete s value w)
  = issued w ++ [setPositionAsync (committed value); playAsync]
  /\ position (ui (handleSeekComplete s value w)) = committed value
  /\ isSeeking (ui (handleSeekComplete s value w)) = false.
Proof.
  intros Href.
  unfold handleSeekComplete, handleSeek, andThen.
  fold (committed value).
  unfold whenVideo at 2. rewrite Href.
  unfold whenVideo. frame_overlay. cbn. rewrite Href. cbn. frame_overlay. cbn.
  rewrite <- app_assoc. rewrite Href. cbn. frame_overlay. auto.
Qed.



(** *** Skip *)

Lemma handleSkip_mounted (direction : Direction) (w : World) :
  videoRef w = true ->
  position (ui (step (pressSkip direction) w)) = skipTarget direction (ui w)
  /\ duration (ui (step (pressSkip direction) w)) = duration (ui w).
Proof.
  intros Href. unfold step. frame_overlay. cbn [handle].
  unfold handleSkip, whenVideo, andThen. rewrite Href.
  frame_overlay. cbn. destruct direction; auto.
Qed.

Lemma handleSkip_unmounted (direction : Direction) (w : World) :
  videoRef w = false ->
  position (ui (step (pressSkip direction) w)) = position (ui w)
  /\ duration (ui (step (pressSkip direction) w)) = duration (ui w).
Proof.
  intros Href. unfold step. frame_overlay. cbn [handle].
  unfold handleSkip, whenVideo. rewrite Href. auto.
Qed.

Lemma skip_stays_in_bounds (direction : Direction) (w : World) :
  0 <= position (ui w) <= duration (ui w) ->
  0 <= position (ui (step (pressSkip direction) w))
    <= duration (ui (step (pressSkip direction) w)).
Proof.
  intros Hin. destruct (videoRef w) eqn:Href.
  - destruct (handleSkip_mounted direction w Href) as (Hpos & Hdur).
    rewrite Hpos, Hdur. unfold skipTarget, SKIP_TIME_MS. destruct direction; lia.
  - destruct (handleSkip_unmounted direction w Href) as (Hpos & Hdur).
    rewrite Hpos, Hdur. exact Hin.
Qed.

(** C6, as the claim states it, fails: a stream whose duration is not
    known yet (duration 0) reports position 50000; a backward skip moves
    the display to 40000, beyond the duration. *)
Lemma skip_backward_out_of_bounds :
  position (ui (run [tick 50000 None true false] mounted)) = 50000
  /\ duration (ui (run [tick 50000 None true false] mounted)) = 0
  /\ position (ui (step (pressSkip backward) (run [tick 50000 None true false] mounted)))
     = 40000
  /\ ~ (0 <= position (ui (step (pressSkip backward) (run [tick 50000 None true false] mounted)))
          <= duration (ui (step (pressSkip backward) (run [tick 50000 None true false] mounted)))).
Proof. repeat split. vm_compute. intros [_ H]. apply H. reflexivity. Qed.

(** C6, amended.  For every position P and duration D of a mounted player,
    skip forward displays min(P+10000, D) and skip backward max(P-10000, 0);
    consequently, from a position within [0, D], any sequence of skips
    keeps the position within [0, D]; and with D = 120000 and P = 5000 a
    backward skip displays 0. *)
Theorem skip_targets_and_bounds (w : World) :
  videoRef w = true ->
  position (ui (step (pressSkip forward) w))
  = Z.min (position (ui w) + 10000) (duration (ui w))
  /\ position (ui (step (pressSkip backward) w)) = Z.max (position (ui w) - 10000) 0
  /\ (forall directions : list Direction,
         0 <= position (ui w) <= duration (ui w) ->
         0 <= position (ui (run (map pressSkip directions) w))
           <= duration (ui (run (map pressSkip directions) w)))
  /\ (position (ui w) = 5000 -> duration (ui w) = 120000 ->
      position (ui (step (pressSkip backward) w)) = 0).
Proof.
  intros Href.
  destruct (handleSkip_mounted forward w Href) as (Hfwd & _).
  destruct (handleSkip_mounted backward w Href) as (Hbwd & _).
  split; [exact Hfwd|]. split; [exact Hbwd|]. split.
  - intros directions. clear. revert w.
    induction directions as [|d directions IH]; intros w Hin; [exact Hin|].
    cbn [map]. rewrite run_cons. apply IH, skip_stays_in_bounds, Hin.
  - intros HP HD. rewrite Hbwd. unfold skipTarget, SKIP_TIME_MS. rewrite HP. reflexivity.
Qed.

(** The scenario of the specification: duration 120000, position 5000. *)
Lemma skip_targets_and_bounds_witness :
  videoRef (run [tick 5000 (Some 120000) true false] mounted) = true
  /\ position (ui (step (pressSkip backward)
                     (run [tick 5000 (Some 120000) true false] mounted))) = 0.
Proof.
  split; [reflexivity|].
  destruct (skip_targets_and_bounds
              (run [tick 5000 (Some 120000) true false] mounted) eq_refl)
    as (_ & _ & _ & Hscenario).
  apply Hscenario; reflexivity.
Defined.

(** *** Stream switching *)

Lemma step_onChangeText (text : string) (w : World) :
  step (onChangeText text) w = setState (setInputVideoUrl text) w.
Proof.
  unfold step, isPlayingEffect. cbn. rewrite Bool.eqb_reflx. reflexivity.
Qed.

Lemma handleUrlChange_rejected (s : State) (w : World) :
  (10 <? Z.of_nat (String.length (trim (inputVideoUrl s))))
  && includes "http" (inputVideoUrl s) = false ->
  handleUrlChange s w
  = issue (alert "Invalid URL" "Please enter a valid stream URL.") w.
Proof. intros Hcond. unfold handleUrlChange. rewrite Hcond. reflexivity. Qed.

Lemma handleUrlChange_accepted (s : State) (w : World) :
  (10 <? Z.of_nat (String.length (trim (inputVideoUrl s))))
  && includes "http" (inputVideoUrl s) = true ->
  handleUrlChange s w
  = (setState (setCurrentVideoUrl (inputVideoUrl s)) ;;
     setState (setIsPlaying false) ;;
     setState (setDuration 0) ;;
     setState (setPosition 0) ;;
     issue (alert "URL Changed" "New stream source loaded.")) w.
Proof. intros Hcond. unfold handleUrlChange. rewrite Hcond. reflexivity. Qed.

(** C8.  Loading "not-a-url" is rejected (the Invalid URL alert is the
    only command) and leaves the current URL, the position, the duration
    and isPlaying as they were; loading "https://host/new.m3u8" is accepted:
    it becomes the current URL, and position, duration and isPlaying are
    reset to 0, 0 and false. *)
Theorem loadStream_scenarios (w : World) :
  (currentVideoUrl (ui (run (loadStream "not-a-url") w)) = currentVideoUrl (ui w)
   /\ position (ui (run (loadStream "not-a-url") w)) = position (ui w)
   /\ duration (ui (run (loadStream "not-a-url") w)) = duration (ui w)
   /\ isPlaying (ui (run (loadStream "not-a-url") w)) = isPlaying (ui w)
   /\ issued (run (loadStream "not-a-url") w)
      = issued w ++ [alert "Invalid URL" "Please enter a valid stream URL."])
  /\ (currentVideoUrl (ui (run (loadStream "https://host/new.m3u8") w))
      = "https://host/new.m3u8"%string
      /\ position (ui (run (loadStream "https://host/new.m3u8") w)) = 0
      /\ duration (ui (run (loadStream "https://host/new.m3u8") w)) = 0
      /\ isPlaying (ui (run (loadStream "https://host/new.m3u8") w)) = false
      /\ issued (run (loadStream "https://host/new.m3u8") w)
         = issued w ++ [alert "URL Changed" "New stream source loaded."]).
Proof.
  unfold loadStream. rewrite !run_cons. cbn [run fold_left].
  rewrite !step_onChangeText. unfold step. frame_overlay. cbn [handle].
  split.
  - rewrite handleUrlChange_rejected by reflexivity. cbn. auto.
  - rewrite handleUrlChange_accepted by reflexivity. cbn. auto.
Qed.

(** *** Fullscreen and orientation *)

Lemma countLocks_app (o : OrientationLock) (l1 l2 : list Command) :
  countLocks o (l1 ++ l2) = (countLocks o l1 + countLocks o l2)%nat.
Proof. unfold countLocks. rewrite filter_app, length_app. reflexivity. Qed.

Ltac count_locks :=
  cbn [issued ui videoRef setState issue];
  rewrite ?countLocks_app; unfold countLocks;
  cbn [filter Datatypes.length app]; lia.

(** Orientation locks that one event adds to the command log. *)
Lemma step_locks (e : Event) (w : World) :
  countLocks LANDSCAPE_LEFT (issued (step e w))
  = (countLocks LANDSCAPE_LEFT (issued w) + countUpdates WILL_PRESENT [e])%nat
  /\ countLocks PORTRAIT (issued (step e w))
     = (countLocks PORTRAIT (issued w) + countUpdates WILL_DISMISS [e])%nat.
Proof.
  unfold step. frame_overlay. destruct e; cbn [handle countUpdates].
  - destruct status as [|s]; [unfold handlePlaybackStatusUpdate, skip; lia|].
    unfold handlePlaybackStatusUpdate, andThen, whenVideo, skip.
    destruct (isSeeking (ui w)), (Status.didJustFinish s); cbn [negb];
      cbn [issued ui videoRef setState issue];
      try destruct (videoRef w); count_locks.
  - unfold handleSeekStart, andThen, whenVideo.
    cbn [issued ui videoRef setState issue].
    destruct (videoRef w); count_locks.
  - destruct (videoRef w) eqn:Href.
    + destruct (handleSeekComplete_mounted (ui w) value w Href) as (Hissued & _).
      rewrite Hissued. count_locks.
    + unfold handleSeekComplete, handleSeek, andThen, whenVideo.
      rewrite Href. cbn [issued ui videoRef setState issue]. rewrite Href.
      count_locks.
  - unfold handleSkip, whenVideo, andThen.
    destruct (videoRef w); [|lia]. frame_overlay. count_locks.
  - unfold handleFullscreenUpdate, andThen. frame_overlay.
    destruct (Z.eqb_spec fullscreenUpdate WILL_PRESENT) as [->|Hnp].
    + change (WILL_PRESENT =? WILL_DISMISS) with false. count_locks.
    + destruct (Z.eqb_spec fullscreenUpdate WILL_DISMISS) as [->|Hnd].
      * count_locks.
      * unfold skip. lia.
  - count_locks.
  - unfold handleUrlChange, andThen.
    destruct ((10 <? Z.of_nat (String.length (trim (inputVideoUrl (ui w)))))
              && includes "http" (inputVideoUrl (ui w))); count_locks.
  - pose proof (overlay_issued _ w (overlay_animationEnd (ui w))) as Hsame.
    cbn [handle] in Hsame. rewrite Hsame. lia.
  - pose proof (overlay_issued _ w (overlay_timerFired (ui w) id)) as Hsame.
    cbn [handle] in Hsame. rewrite Hsame. lia.
Qed.

Lemma countUpdates_cons (update : Z) (e : Event) (events : list Event) :
  countUpdates update (e :: events)
  = (countUpdates update [e] + countUpdates update events)%nat.
Proof. destruct e; cbn; lia. Qed.

(** C2, as the claim states it, fails: the player emits will-present twice
    for one entry into fullscreen, and two landscape locks are issued. *)
Lemma duplicate_will_present_locks_twice :
  isFullscreen (ui mounted) = false
  /\ isFullscreen (ui (run [onFullscreenUpdate WILL_PRESENT] mounted)) = true
  /\ countLocks LANDSCAPE_LEFT
       (issued (run [onFullscreenUpdate WILL_PRESENT; onFullscreenUpdate WILL_PRESENT] mounted))
     = 2%nat
  /\ ~ (countLocks LANDSCAPE_LEFT
         (issued (run [onFullscreenUpdate WILL_PRESENT; onFullscreenUpdate WILL_PRESENT] mounted))
       <= 1)%nat.
Proof. repeat split. vm_compute. lia. Qed.

(** C2, amended.  For every sequence of events, exactly one landscape
    orientation lock is issued per will-present event and exactly one
    portrait lock per will-dismiss event, duplicates of an event included
    (the handler keeps no record of the last committed state); no other
    event issues an orientation lock. *)
Theorem one_lock_per_lifecycle_event (events : list Event) (w : World) :
  countLocks LANDSCAPE_LEFT (issued (run events w))
  = (countLocks LANDSCAPE_LEFT (issued w) + countUpdates WILL_PRESENT events)%nat
  /\ countLocks PORTRAIT (issued (run events w))
     = (countLocks PORTRAIT (issued w) + countUpdates WILL_DISMISS events)%nat.
Proof.
  revert w. induction events as [|e events IH]; intros w.
  - cbn. lia.
  - rewrite run_cons.
    rewrite (countUpdates_cons WILL_PRESENT), (countUpdates_cons WILL_DISMISS).
    destruct (IH (step e w)) as (Hland & Hport).
    destruct (step_locks e w) as (Hland1 & Hport1).
    rewrite Hland, Hport, Hland1, Hport1. lia.
Qed.

(** *** The auto-hide timer of the control overlay *)

Lemma remove_only (id : nat) : List.remove Nat.eq_dec id [id] = [].
Proof. cbn. destruct (Nat.eq_dec id id); congruence. Qed.

Lemma quiet_at_most_one (w : World) :
  quiet w = true -> (List.length (timers w) <= 1)%nat.
Proof.
  unfold quiet. destruct (fadeAnim w); [discriminate|].
  destruct (timers w) as [|id [|id' rest]]; cbn [Datatypes.length]; [lia|lia|].
  destruct (hideControlsTimer w); discriminate.
Qed.

Lemma fadeInControls_cancels (s : State) (w : World) :
  quiet w = true -> timers (fadeInControls s w) = [].
Proof.
  destruct w as [u r held pending next anim log]. unfold quiet. cbn.
  destruct anim; [discriminate|].
  destruct pending as [|id [|id' rest]], held as [h|]; try discriminate; intros Hq.
  - reflexivity.
  - reflexivity.
  - apply Nat.eqb_eq in Hq. subst h.
    unfold fadeInControls, andThen, clearHideControlsTimer, startTiming. cbn.
    apply remove_only.
Qed.

Lemma showControls_round (w : World) :
  quiet w = true ->
  List.length (timers (showControls w)) = (if isPlaying (ui w) then 1 else 0)%nat
  /\ quiet (showControls w) = true
  /\ isPlaying (ui (showControls w)) = isPlaying (ui w).
Proof.
  destruct w as [u r held pending next anim log]. unfold quiet. cbn.
  destruct anim; [discriminate|].
  destruct pending as [|id [|id' rest]], held as [h|]; try discriminate; intros Hq;
    try (apply Nat.eqb_eq in Hq; subst h);
    unfold showControls, fadeInControls, andThen, clearHideControlsTimer, startTiming;
    cbn; destruct (isPlaying u) eqn:Eplaying; cbn;
    try (destruct (Nat.eq_dec id id); [|congruence]);
    cbn; rewrite ?Nat.eqb_refl; auto.
Qed.

(** Calls that do not overlap: from a moment when no fade is running and
    no timer is pending but at most the one held in hideControlsTimer,
    every call to show the controls first cancels that timer and arms none
    by itself: a new timer is armed only when the fade-in ends, and only if
    playback was active; so N >= 1 calls, each of whose fade-in ends before
    the next call, leave exactly one armed timer when playing and none when
    paused, and never more than one pending. *)
Lemma showControls_single_timer (w : World) (n : nat) :
  quiet w = true ->
  (1 <= n)%nat ->
  (forall s : State, timers (fadeInControls s w) = [])
  /\ List.length (timers (showControlsTimes n w))
     = (if isPlaying (ui w) then 1 else 0)%nat
  /\ quiet (showControlsTimes n w) = true
  /\ (List.length (timers (showControlsTimes n w)) <= 1)%nat.
Proof.
  intros Hq Hn. split; [intros s; apply fadeInControls_cancels, Hq|].
  assert (Hmain : List.length (timers (showControlsTimes n w))
                  = (if isPlaying (ui w) then 1 else 0)%nat
                  /\ quiet (showControlsTimes n w) = true).
  { destruct n as [|k]; [lia|]. clear Hn. revert w Hq.
    induction k as [|k IH]; intros w Hq.
    - destruct (showControls_round w Hq) as (Hlen & Hq' & _). split; assumption.
    - destruct (showControls_round w Hq) as (_ & Hq' & Hplaying).
      change (showControlsTimes (S (S k)) w)
        with (showControlsTimes (S k) (showControls w)).
      rewrite <- Hplaying. apply IH, Hq'. }
  destruct Hmain as (Hlen & Hq'). repeat split; auto using quiet_at_most_one.
Qed.

(** Three calls while the stream plays, after the fade of the first
    render has ended. *)
Lemma showControls_single_timer_witness :
  quiet (run [tick 0 (Some 120000) true false; animationEnd] mounted) = true
  /\ (1 <= 3)%nat
  /\ List.length (timers (showControlsTimes 3
         (run [tick 0 (Some 120000) true false; animationEnd] mounted))) = 1%nat.
Proof.
  split; [reflexivity|]. split; [lia|].
  destruct (showControls_single_timer
              (run [tick 0 (Some 120000) true false; animationEnd] mounted) 3
              eq_refl (le_S _ _ (le_S _ _ (le_n 1))))
    as (_ & Hlen & _).
  exact Hlen.
Defined.

(** Two skip presses in a row: the second arrives while the fade-in of
    the first is still running and interrupts it, the interrupted callback
    arms a timer that the ref then loses, and two timers are pending once
    the second fade-in ends. *)
Example interrupted_fade_leaves_two_timers :
  timers (run [tick 0 (Some 120000) true false; animationEnd;
               pressSkip forward; pressSkip forward; animationEnd] mounted)
  = [2%nat; 3%nat].
Proof. reflexivity. Qed.

Lemma fadeInControls_first_call (s : State) (w : World) :
  quiet w = true ->
  fadeInControls s w
  = {| ui := setControlsVisible true (ui w); videoRef := videoRef w;
       hideControlsTimer := hideControlsTimer w; timers := [];
       nextTimer := nextTimer w; fadeAnim := Some (armHideTimerIf (isPlaying s));
       issued := issued w |}.
Proof.
  destruct w as [u r held pending next anim log]. unfold quiet.
  cbn [ui videoRef hideControlsTimer timers nextTimer fadeAnim issued].
  destruct anim; [discriminate|].
  destruct pending as [|id [|id' rest]], held as [h|]; try discriminate; intros Hq;
    try (apply Nat.eqb_eq in Hq; subst h);
    cbv [fadeInControls andThen clearHideControlsTimer startTiming setState
         clearTimeout setFadeAnim
         ui videoRef hideControlsTimer timers nextTimer fadeAnim issued];
    rewrite ?remove_only; reflexivity.
Qed.

(** A call that interrupts a running fade-in, while playing: the held
    timer is cleared, then the interrupted callback arms a new one. *)
Lemma fadeInControls_interrupting (s : State) (u : State) (r : bool)
  (held : option nat) (pending : list nat) (next : nat) (log : list Command) :
  isPlaying s = true ->
  match held with
  | Some id => pending = [id]
  | None => pending = []
  end \/ pending = [] ->
  fadeInControls s
    {| ui := u; videoRef := r; hideControlsTimer := held; timers := pending;
       nextTimer := next; fadeAnim := Some (armHideTimerIf true); issued := log |}
  = {| ui := setControlsVisible true u; videoRef := r;
       hideControlsTimer := Some next; timers := [next];
       nextTimer := S next; fadeAnim := Some (armHideTimerIf true); issued := log |}.
Proof.
  intros Hplaying Hpending.
  destruct held as [id|]; destruct Hpending as [Hp|Hp]; subst pending;
    cbv [fadeInControls andThen clearHideControlsTimer startTiming setState
         clearTimeout setFadeAnim runEndCallback armHideControlsTimer
         ui videoRef hideControlsTimer timers nextTimer fadeAnim issued];
    rewrite Hplaying, ?remove_only; reflexivity.
Qed.

Lemma showControlsAtOnce_fadingIn (n : nat) (s : State) (w : World) :
  isPlaying s = true ->
  fadingIn w = true ->
  fadingIn (showControlsAtOnce n s w) = true.
Proof.
  intros Hplaying. revert w. induction n as [|n IH]; intros w Hw; [exact Hw|].
  cbn [showControlsAtOnce]. unfold andThen. apply IH.
  destruct w as [u r held pending next anim log]. unfold fadingIn in Hw.
  cbn [ui videoRef hideControlsTimer timers nextTimer fadeAnim issued] in Hw.
  destruct anim as [[[|]|]|]; try discriminate.
  destruct pending as [|id [|id' rest]]; try discriminate.
  destruct held as [h|]; try discriminate.
  apply Nat.eqb_eq in Hw. subst h.
  rewrite (fadeInControls_interrupting s u r (Some id) [id] next log Hplaying)
    by (left; reflexivity).
  unfold fadingIn. cbn. apply Nat.eqb_refl.
Qed.

(** C5, on the code.  Calls to show the controls that follow one another
    before a fade-in has ended do not keep the single-timer discipline:
    while playing, from a moment when no fade is running and no timer is
    pending but the held one, N >= 2 calls in succession leave a timer
    pending while the last fade-in still runs, and two timers pending once
    it has ended, of which [hideControlsTimer] holds only the newer. *)
Theorem showControls_at_once_two_timers (w : World) (n : nat) :
  quiet w = true ->
  isPlaying (ui w) = true ->
  (2 <= n)%nat ->
  List.length (timers (showControlsAtOnce n (ui w) w)) = 1%nat
  /\ List.length
       (timers (handle (ui w) animationEnd (showControlsAtOnce n (ui w) w)))
     = 2%nat
  /\ exists older newer,
       timers (handle (ui w) animationEnd (showControlsAtOnce n (ui w) w))
       = [older; newer]
       /\ hideControlsTimer
            (handle (ui w) animationEnd (showControlsAtOnce n (ui w) w))
          = Some newer.
Proof.
  intros Hq Hplaying Hn.
  destruct n as [|[|n]]; try lia. clear Hn.
  assert (Hfading : fadingIn (showControlsAtOnce (S (S n)) (ui w) w) = true).
  { cbn [showControlsAtOnce]. unfold andThen.
    apply showControlsAtOnce_fadingIn; [exact Hplaying|].
    rewrite (fadeInControls_first_call (ui w) w Hq). rewrite Hplaying.
    rewrite (fadeInControls_interrupting (ui w) _ _ _ [] _ _ Hplaying)
      by (right; reflexivity).
    unfold fadingIn. cbn. apply Nat.eqb_refl. }
  destruct (showControlsAtOnce (S (S n)) (ui w) w)
    as [u r held pending next anim log].
  unfold fadingIn in Hfading.
  cbn [ui videoRef hideControlsTimer timers nextTimer fadeAnim issued] in Hfading.
  destruct anim as [[[|]|]|]; try discriminate.
  destruct pending as [|id [|id' rest]]; try discriminate.
  destruct held as [h|]; try discriminate.
  cbn. split; [reflexivity|]. split; [reflexivity|].
  exists id, next. split; reflexivity.
Qed.

(** The stream plays and the first fade has ended; the controls are then
    shown twice in a row, as by two presses on a skip button. *)
Lemma showControls_at_once_two_timers_witness :
  quiet (run [tick 0 (Some 120000) true false; animationEnd] mounted) = true
  /\ isPlaying (ui (run [tick 0 (Some 120000) true false; animationEnd] mounted)) = true
  /\ (2 <= 2)%nat
  /\ List.length
       (timers (handle (ui (run [tick 0 (Some 120000) true false; animationEnd] mounted))
                  animationEnd
                  (showControlsAtOnce 2
                     (ui (run [tick 0 (Some 120000) true false; animationEnd] mounted))
                     (run [tick 0 (Some 120000) true false; animationEnd] mounted))))
     = 2%nat.
Proof.
  split; [reflexivity|]. split; [reflexivity|]. split; [lia|].
  destruct (showControls_at_once_two_timers
              (run [tick 0 (Some 120000) true false; animationEnd] mounted) 2
              eq_refl eq_refl (le_n 2)) as (_ & Htwo & _).
  exact Htwo.
Defined.

(** *** The displayed position during a seek gesture *)

Lemma step_position_other_events (e : Event) (w : World) :
  isSeeking (ui w) = true ->
  (forall value, e <> onSlidingComplete value) ->
  (forall direction, e <> pressSkip direction) ->
  e <> pressLoadStream ->
  position (ui (step e w)) = position (ui w).
Proof.
  intros Hseek Hcommit Hskip Hload. destruct e.
  - apply tick_position_seeking, Hseek.
  - unfold step. frame_overlay. cbn [handle].
    unfold handleSeekStart, andThen, whenVideo. cbn [videoRef setState].
    destruct (videoRef w); reflexivity.
  - exfalso. apply (Hcommit value). reflexivity.
  - exfalso. apply (Hskip direction). reflexivity.
  - unfold step. frame_overlay. cbn [handle].
    unfold handleFullscreenUpdate, andThen. frame_overlay.
    destruct (fullscreenUpdate =? WILL_PRESENT); [reflexivity|].
    destruct (fullscreenUpdate =? WILL_DISMISS); reflexivity.
  - rewrite step_onChangeText. reflexivity.
  - exfalso. apply Hload. reflexivity.
  - unfold step. frame_overlay.
    apply (overlay_position (handle (ui w) animationEnd) w), overlay_animationEnd.
  - unfold step. frame_overlay.
    apply (overlay_position (handle (ui w) (timerFired id)) w), overlay_timerFired.
Qed.

(** C3, as the claim states it, fails: there are no drag updates, and
    while the slider is held a press on skip forward moves the displayed
    position from 50000 to 60000, and Load Stream resets it to 0. *)
Lemma position_changes_while_seeking :
  isSeeking (ui (run [tick 50000 (Some 120000) true false; onSlidingStart] mounted)) = true
  /\ position (ui (run [tick 50000 (Some 120000) true false; onSlidingStart] mounted))
     = 50000
  /\ isSeeking (ui (step (pressSkip forward)
                      (run [tick 50000 (Some 120000) true false; onSlidingStart] mounted)))
     = true
  /\ position (ui (step (pressSkip forward)
                     (run [tick 50000 (Some 120000) true false; onSlidingStart] mounted)))
     = 60000
  /\ position (ui (run (loadStream "https://host/new.m3u8")
                     (run [tick 50000 (Some 120000) true false; onSlidingStart] mounted)))
     = 0
  /\ position (ui (step (pressSkip forward)
                     (run [tick 50000 (Some 120000) true false; onSlidingStart] mounted)))
     <> position (ui (run [tick 50000 (Some 120000) true false; onSlidingStart] mounted)).
Proof. repeat split. vm_compute. discriminate. Qed.

(** C3, amended.  While a seek gesture is active, every status tick
    leaves the displayed position unchanged, however many arrive, while
    duration, isBuffering and isPlaying still take the values of the tick
    (isPlaying forced to false by didJustFinish); the screen has no drag
    updates, and during the gesture the displayed position is changed by
    no event other than the release of the slider, a press on a skip
    button, or Load Stream. *)
Theorem position_during_seek_gesture (w : World) :
  isSeeking (ui w) = true ->
  (forall ticks : list AVPlaybackStatus,
      position (ui (run (map onPlaybackStatusUpdate ticks) w)) = position (ui w)
      /\ isSeeking (ui (run (map onPlaybackStatusUpdate ticks) w)) = true
      /\ forall s : Status.AVPlaybackStatusSuccess,
           duration (ui (run (map onPlaybackStatusUpdate (ticks ++ [Loaded s])) w))
           = orZeroOpt (Status.durationMillis s)
           /\ isBuffering (ui (run (map onPlaybackStatusUpdate (ticks ++ [Loaded s])) w))
              = Status.isBuffering s
           /\ isPlaying (ui (run (map onPlaybackStatusUpdate (ticks ++ [Loaded s])) w))
              = (if Status.didJustFinish s then false else Status.isPlaying s))
  /\ (forall e : Event,
         position (ui (step e w)) <> position (ui w) ->
         (exists value, e = onSlidingComplete value)
         \/ (exists direction, e = pressSkip direction)
         \/ e = pressLoadStream).
Proof.
  intros Hseek. split.
  - intros ticks. apply seeking_ticks_keep_position, Hseek.
  - intros e Hmoved.
    destruct e; try (exfalso; apply Hmoved;
                     apply step_position_other_events;
                     [exact Hseek|discriminate|discriminate|discriminate]).
    + left. eauto.
    + right. left. eauto.
    + right. right. reflexivity.
Qed.

(** The slider is pressed at position 5000, then two ticks arrive. *)
Lemma position_during_seek_gesture_witness :
  isSeeking (ui (run [tick 5000 (Some 120000) true false; onSlidingStart] mounted)) = true
  /\ position (ui (run (map onPlaybackStatusUpdate
         [Loaded {| Status.positionMillis := 6000; Status.durationMillis := Some 120000;
                    Status.isPlaying := false; Status.isBuffering := true;
                    Status.didJustFinish := false |};
          Loaded {| Status.positionMillis := 7000; Status.durationMillis := Some 120000;
                    Status.isPlaying := false; Status.isBuffering := false;
                    Status.didJustFinish := false |}])
         (run [tick 5000 (Some 120000) true false; onSlidingStart] mounted)))
     = 5000.
Proof.
  split; [reflexivity|].
  destruct (position_during_seek_gesture
              (run [tick 5000 (Some 120000) true false; onSlidingStart] mounted) eq_refl)
    as (Hticks & _).
  exact (proj1 (Hticks _)).
Defined.

End VideoPlayerFacts.

(** * Further properties of the services and the screens *)

(** ** URL validation *)
Module UrlServiceMore.
Import JsString UrlService.

Lemma trimEnd_idempotent (s : string) : trimEnd (trimEnd s) = trimEnd s.
Proof.
  induction s as [|c rest IH]; [reflexivity|].
  cbn [trimEnd]. destruct (trimEnd rest) as [|d kept] eqn:Erest.
  - destruct (isWhiteSpace c) eqn:Ec; [reflexivity|].
    cbn [trimEnd]. rewrite Ec. reflexivity.
  - cbn [trimEnd]. cbn [trimEnd] in IH. rewrite IH. reflexivity.
Qed.

Lemma trimStart_head (s : string) :
  trimStart s = EmptyString
  \/ exists c rest, trimStart s = String c rest /\ isWhiteSpace c = false.
Proof.
  induction s as [|c rest IH]; [left; reflexivity|].
  cbn [trimStart]. destruct (isWhiteSpace c) eqn:Ec; [exact IH|].
  right. exists c, rest. auto.
Qed.

Lemma trimEnd_keeps_head (c : ascii) (rest : string) :
  isWhiteSpace c = false -> exists kept, trimEnd (String c rest) = String c kept.
Proof.
  intros Ec. cbn [trimEnd]. destruct (trimEnd rest) as [|d kept].
  - rewrite Ec. eauto.
  - eauto.
Qed.

Lemma trim_idempotent (s : string) : trim (trim s) = trim s.
Proof.
  unfold trim. destruct (trimStart_head s) as [Hempty|(c & rest & Hs & Hc)].
  - rewrite Hempty. reflexivity.
  - rewrite Hs. destruct (trimEnd_keeps_head c rest Hc) as (kept & Hkept).
    rewrite Hkept. cbn [trimStart]. rewrite Hc. rewrite <- Hkept.
    apply trimEnd_idempotent.
Qed.

(** X1.  White space around the input never changes the outcome:
    validating a string and validating its trimmed form give the same
    result, for every URL constructor. *)
Theorem validateAndNormalizeUrl_ignores_outer_space
  (newURL : string -> option URL) (rawUrl : string) :
  validateAndNormalizeUrl newURL rawUrl
  = validateAndNormalizeUrl newURL (trim rawUrl).
Proof. unfold validateAndNormalizeUrl. rewrite trim_idempotent. reflexivity. Qed.

Lemma toLowerCase_app (a b : string) :
  toLowerCase (a ++ b) = toLowerCase a ++ toLowerCase b.
Proof. induction a as [|c a IH]; [reflexivity|]. cbn. rewrite IH. reflexivity. Qed.

Lemma urlToTest_has_scheme (trimmedUrl : string) :
  schemeTest (urlToTest trimmedUrl) = true.
Proof.
  unfold urlToTest. destruct (schemeTest trimmedUrl) eqn:Escheme; cbn [negb].
  - exact Escheme.
  - unfold schemeTest. rewrite toLowerCase_app.
    change (toLowerCase "https://") with "https://".
    apply orb_true_iff. right. destruct (toLowerCase trimmedUrl); reflexivity.
Qed.

(** X2.  The URL constructor is only ever asked about strings that carry
    an http:// or https:// prefix (in any letter case): two constructors
    that agree on those strings give the same validation result on every
    input.  In particular an input with another scheme, such as ftp://..,
    is not tested as it stands but with https:// put in front. *)
Theorem validateAndNormalizeUrl_only_tests_http
  (newURL newURL' : string -> option URL) (rawUrl : string) :
  (forall s, schemeTest s = true -> newURL s = newURL' s) ->
  validateAndNormalizeUrl newURL rawUrl = validateAndNormalizeUrl newURL' rawUrl.
Proof.
  intros Hagree. unfold validateAndNormalizeUrl.
  rewrite (Hagree (urlToTest (trim rawUrl)) (urlToTest_has_scheme _)).
  reflexivity.
Qed.

(** Two constructors that differ on a string without scheme only. *)
Lemma validateAndNormalizeUrl_only_tests_http_witness :
  (forall s, schemeTest s = true ->
             googleOnly s
             = (fun t => if t =? "ftp://files" then Some {| protocol := "ftp:"; href := t |}
                         else googleOnly t) s)
  /\ validateAndNormalizeUrl googleOnly "ftp://files"
     = validateAndNormalizeUrl
         (fun t => if t =? "ftp://files" then Some {| protocol := "ftp:"; href := t |}
                   else googleOnly t) "ftp://files".
Proof.
  assert (Hagree : forall s, schemeTest s = true ->
             googleOnly s
             = (fun t => if t =? "ftp://files" then Some {| protocol := "ftp:"; href := t |}
                         else googleOnly t) s).
  { intros s Hs. cbv beta. destruct (String.eqb_spec s "ftp://files") as [->|_].
    - discriminate Hs.
    - reflexivity. }
  split; [exact Hagree|].
  apply (validateAndNormalizeUrl_only_tests_http googleOnly _ "ftp://files" Hagree).
Defined.

(** The two fields of a result agree: [isValid] is true exactly when a
    normalized URL is returned. *)
Lemma validateAndNormalizeUrl_fields_agree
  (newURL : string -> option URL) (rawUrl : string) :
  isValid (validateAndNormalizeUrl newURL rawUrl) = true
  <-> normalizedUrl (validateAndNormalizeUrl newURL rawUrl) <> None.
Proof.
  unfold validateAndNormalizeUrl.
  destruct (truthy (trim rawUrl)); cbn [negb];
    [|cbn; split; [discriminate|congruence]].
  destruct (newURL (urlToTest (trim rawUrl))) as [u|];
    [|cbn; split; [discriminate|congruence]].
  cbv zeta.
  destruct ((toLowerCase (protocol u) =? "http:")
            || (toLowerCase (protocol u) =? "https:"));
    cbn; split; congruence.
Qed.

End UrlServiceMore.

(** ** Notification taps *)
Module NotificationTapsFacts.
Import NotificationService NotificationTaps.

Lemma decimal_starts_with_digit (n : nat) :
  exists c rest, decimal n = String c rest /\ JsString.lowerChar c = c
                 /\ (nat_of_ascii c <= 57)%nat.
Proof.
  unfold decimal, DecimalString.NilZero.string_of_uint.
  destruct (Nat.to_uint n); cbn; eexists; eexists;
    (split; [reflexivity|split; [reflexivity|cbn; lia]]).
Qed.

Lemma screenName_not_index (target : Screen) (len : nat) :
  isIndexOf len (screenName target) = false.
Proof.
  unfold isIndexOf. generalize (seq 0 len) as indices.
  induction indices as [|i indices IH]; [reflexivity|].
  cbn [existsb]. rewrite IH, orb_false_r.
  destruct (decimal_starts_with_digit i) as (c & rest & Hdec & _ & Hc).
  rewrite Hdec. destruct target; cbn [screenName String.eqb].
  - destruct (Ascii.eqb_spec "W" c) as [<-|_]; [cbn in Hc; lia|reflexivity].
  - destruct (Ascii.eqb_spec "V" c) as [<-|_]; [cbn in Hc; lia|reflexivity].
Qed.

(** X3.  Tapping a notification never navigates: the listener tests
    [targetScreen in routes.map(r => r.name)], which asks whether the array
    has a property of that name (an index, "length" or an inherited
    method), not whether it holds that value; so for both screens of the
    application and every navigation state, [navigation.navigate] is not
    called (no array property being named WebView or VideoPlayer). *)
Theorem notification_tap_never_navigates
  (inherited : string -> bool) (routes : list Route) (data : option NotificationData) :
  inherited "WebView" = false ->
  inherited "VideoPlayer" = false ->
  responseReceived inherited routes data = [].
Proof.
  intros HW HV. unfold responseReceived.
  destruct data as [[[target|]]|]; try reflexivity.
  cbv zeta. cbn [targetScreen]. unfold inArray. rewrite screenName_not_index.
  destruct target; cbn [screenName]; rewrite ?HW, ?HV; reflexivity.
Qed.

(** The notification of the Notify and Navigate button is tapped while
    both screens are on the stack. *)
Lemma notification_tap_never_navigates_witness :
  someInherited "WebView" = false
  /\ someInherited "VideoPlayer" = false
  /\ responseReceived someInherited
       [ {| route_key := "WebView-1"; route_name := "WebView" |};
         {| route_key := "VideoPlayer-2"; route_name := "VideoPlayer" |} ]
       (Some {| targetScreen := Some VideoPlayer |}) = [].
Proof.
  split; [reflexivity|]. split; [reflexivity|].
  apply notification_tap_never_navigates; reflexivity.
Defined.

End NotificationTapsFacts.

(** ** The web view screen *)
Module WebViewScreenFacts.
Import JsString UrlService NotificationService WebViewScreen.

Local Open Scope list_scope.
Local Open Scope Z_scope.

Lemma run_snoc newURL (events : list Event) (e : Event) (w : World) :
  run newURL (events ++ [e]) w = step newURL e (run newURL events w).
Proof. unfold run. rewrite fold_left_app. reflexivity. Qed.

Lemma run_step newURL (e : Event) (events : list Event) (w : World) :
  run newURL (e :: events) w = run newURL events (step newURL e w).
Proof. reflexivity. Qed.

(** What [handleSendNotification] can do. *)
Lemma handleSendNotification_cases (s : State) (w : World) :
  (exists options,
      handleSendNotification s w
      = (perform (schedule options) ;; closeModal) w
      /\ delayInRange (schedule options)
      /\ permissionsGranted s = true
      /\ (NotificationService.title options = "Custom Navigation Alert"
          \/ NotificationService.title options = "Custom Action Alert")%string)
  \/ (exists heading message,
         handleSendNotification s w = perform (alert heading message) w).
Proof.
  unfold handleSendNotification.
  destruct (parseInt (delay (config s))) as [parsedDelay|]; [|right; eauto].
  destruct (Z.ltb_spec parsedDelay 1) as [Hlow|Hlow]; cbn [orb]; [right; eauto|].
  destruct (Z.ltb_spec 10 parsedDelay) as [Hhigh|Hhigh]; [right; eauto|].
  destruct (permissionsGranted s) eqn:Hgranted; [|right; eauto].
  left. eexists. split; [reflexivity|]. split; [|split; [reflexivity|]].
  - cbn. exists parsedDelay. split; [reflexivity|lia].
  - cbn. destruct (isNavigable (config s)); auto.
Qed.

(** X4.  Pressing Send either schedules exactly one notification, whose
    delay is a whole number of seconds from 1 to 10, and closes the modal
    (permissions being granted), or raises one alert and leaves the whole
    state, the open modal included, as it was. *)
Theorem send_schedules_in_range_or_alerts newURL (w : World) :
  (exists options,
      effects (step newURL pressSend w) = effects w ++ [schedule options]
      /\ delayInRange (schedule options)
      /\ permissionsGranted (ui w) = true
      /\ isModalVisible (ui (step newURL pressSend w)) = false)
  \/ (exists heading message,
         effects (step newURL pressSend w) = effects w ++ [alert heading message]
         /\ ui (step newURL pressSend w) = ui w).
Proof.
  unfold step. cbn [handle].
  destruct (handleSendNotification_cases (ui w) w)
    as [(options & Hrun & Hrange & Hgranted & _)|(heading & message & Hrun)];
    rewrite Hrun.
  - left. exists options. auto.
  - right. exists heading, message. auto.
Qed.

(** One event adds effects whose delays are in range. *)
Lemma step_delays_in_range newURL (e : Event) (w : World) :
  exists added, effects (step newURL e w) = effects w ++ added
                /\ Forall delayInRange added.
Proof.
  unfold step.
  destruct e; cbn [handle];
    try (exists []; split; [cbn; rewrite app_nil_r; reflexivity|constructor]).
  - unfold loadWebView.
    destruct (normalizedUrl (validateAndNormalizeUrl newURL (inputUrl (ui w))))
      as [normalized|];
      [destruct (isValid (validateAndNormalizeUrl newURL (inputUrl (ui w)))
                 && truthy normalized);
       [destruct (negb (normalized =? loadedUrl (ui w))%string)|]|];
      try (exists []; split; [cbn; rewrite app_nil_r; reflexivity|constructor]);
      eexists; (split; [reflexivity|repeat constructor]).
  - unfold handleLoadingEnd, andThen.
    destruct (permissionsGranted (ui w) && negb (hasNotifiedOnLoad (ui w))
              && (negb (loading nativeEvent)
                  && negb (title nativeEvent =? "Webpage not available")%string)).
    + eexists. split; [reflexivity|]. repeat constructor.
      exists 1. split; [reflexivity|lia].
    + exists []. split; [cbn; rewrite app_nil_r; reflexivity|constructor].
  - unfold handleLoadingEnd, andThen.
    destruct (permissionsGranted (ui w) && negb (hasNotifiedOnLoad (ui w))
              && (negb (loading nativeEvent)
                  && negb (title nativeEvent =? "Webpage not available")%string)).
    + eexists. split; [reflexivity|]. repeat constructor.
      exists 1. split; [reflexivity|lia].
    + exists []. split; [cbn; rewrite app_nil_r; reflexivity|constructor].
  - destruct (handleSendNotification_cases (ui w) w)
      as [(options & Hrun & Hrange & _)|(heading & message & Hrun)];
      rewrite Hrun; eexists; (split; [reflexivity|repeat constructor; assumption]).
Qed.

(** X5.  Whatever the screen receives, every notification it asks the
    scheduler for has a delay that is a whole number of seconds from 1 to
    10: the range of the scheduler's contract is kept by every caller. *)
Theorem every_scheduled_delay_in_range newURL (events : list Event) (w : World) :
  Forall delayInRange (effects w) ->
  Forall delayInRange (effects (run newURL events w)).
Proof.
  revert w. induction events as [|e events IH]; intros w Hw; [exact Hw|].
  rewrite run_step. apply IH.
  destruct (step_delays_in_range newURL e w) as (added & Hadded & Hrange).
  rewrite Hadded. apply Forall_app. split; assumption.
Qed.

(** A press on Notify, a delay typed with stray characters, Send, and
    the end of a page load, with permissions granted. *)
Lemma every_scheduled_delay_in_range_witness :
  Forall delayInRange (effects mounted)
  /\ Forall delayInRange
       (effects (run googleOnly
          [permissionsResolved true; pressNotifyAndNavigate;
           onChangeDelayText " 7s"; pressSend;
           onLoadEnd {| loading := false; title := "Expo" |}] mounted)).
Proof.
  split; [constructor|].
  apply every_scheduled_delay_in_range. constructor.
Defined.

(** *** The load notification *)





(** *** The error view *)

Lemma step_webViewError newURL (e : Event) (w : World) :
  webViewError (ui w) = None -> webViewError (ui (step newURL e w)) = None.
Proof.
  intros Hnone. unfold step. destruct e; cbn [handle]; try exact Hnone;
    try reflexivity.
  - unfold loadWebView.
    destruct (normalizedUrl (validateAndNormalizeUrl newURL (inputUrl (ui w))))
      as [normalized|];
      [destruct (isValid (validateAndNormalizeUrl newURL (inputUrl (ui w)))
                 && truthy normalized);
       [destruct (negb (normalized =? loadedUrl (ui w))%string)|]|];
      cbn; auto.
  - unfold handleLoadingEnd, andThen.
    destruct (permissionsGranted (ui w) && negb (hasNotifiedOnLoad (ui w))
              && (negb (loading nativeEvent)
                  && negb (title nativeEvent =? "Webpage not available")%string));
      cbn; auto.
  - unfold handleLoadingEnd, andThen.
    destruct (permissionsGranted (ui w) && negb (hasNotifiedOnLoad (ui w))
              && (negb (loading nativeEvent)
                  && negb (title nativeEvent =? "Webpage not available")%string));
      cbn; auto.
  - destruct (handleSendNotification_cases (ui w) w)
      as [(options & Hrun & _)|(heading & message & Hrun)];
      rewrite Hrun; cbn; auto.
Qed.

(** X7.  The error view never shows: the screen starts without an error
    message and no handler that the render wires sets one (the browser's
    error event goes to [handleLoadingEnd]), so [webViewError] is null
    after every sequence of events, failed loads included. *)
Theorem webViewError_stays_null newURL (events : list Event) :
  webViewError (ui (run newURL events mounted)) = None.
Proof.
  assert (Hinv : forall w, webViewError (ui w) = None ->
                           webViewError (ui (run newURL events w)) = None).
  { induction events as [|e events IH]; intros w Hw; [exact Hw|].
    rewrite run_step. apply IH, step_webViewError, Hw. }
  apply Hinv. reflexivity.
Qed.

(** *** Loading a page *)

Lemma loadWebView_accepted newURL (s : State) (normalized : string) (w : World) :
  validateAndNormalizeUrl newURL (inputUrl s)
  = {| isValid := true; normalizedUrl := Some normalized |} ->
  truthy normalized = true ->
  loadWebView newURL s w
  = ((if negb (normalized =? loadedUrl s)%string
      then setState (setHasNotifiedOnLoad false) ;;
           setState (setWebViewError None) ;;
           setState (setLoadedUrl normalized)
      else skip) ;;
     setState (setInputUrl normalized)) w.
Proof.
  intros Hvalid Htruthy. unfold loadWebView. rewrite Hvalid.
  cbn [normalizedUrl isValid]. rewrite Htruthy. reflexivity.
Qed.

Lemma step_loadedUrl newURL (e : Event) (w : World) :
  loadedUrl (ui (step newURL e w)) = loadedUrl (ui w)
  \/ vetted newURL (loadedUrl (ui (step newURL e w))).
Proof.
  unfold step. destruct e; cbn [handle]; try (left; reflexivity).
  - unfold loadWebView.
    destruct (validateAndNormalizeUrl newURL (inputUrl (ui w)))
      as [valid [normalized|]] eqn:Hresult; cbn [normalizedUrl isValid];
      [|left; reflexivity].
    destruct valid; cbn [andb]; [|left; reflexivity].
    destruct (truthy normalized); [|left; reflexivity].
    destruct (negb (normalized =? loadedUrl (ui w))%string); [|left; reflexivity].
    right. exists (inputUrl (ui w)). exact Hresult.
  - unfold handleLoadingEnd, andThen.
    destruct (permissionsGranted (ui w) && negb (hasNotifiedOnLoad (ui w))
              && (negb (loading nativeEvent)
                  && negb (title nativeEvent =? "Webpage not available")%string));
      left; reflexivity.
  - unfold handleLoadingEnd, andThen.
    destruct (permissionsGranted (ui w) && negb (hasNotifiedOnLoad (ui w))
              && (negb (loading nativeEvent)
                  && negb (title nativeEvent =? "Webpage not available")%string));
      left; reflexivity.
  - destruct (handleSendNotification_cases (ui w) w)
      as [(options & Hrun & _)|(heading & message & Hrun)];
      rewrite Hrun; left; reflexivity.
Qed.

(** X8.  The browser is only ever pointed at the default page or at a URL
    that the validator returned as valid: after every sequence of events
    the loaded URL is the one the screen started with or a vetted one. *)
Theorem loadedUrl_default_or_vetted newURL (events : list Event) :
  loadedUrl (ui (run newURL events mounted)) = DEFAULT_URL
  \/ vetted newURL (loadedUrl (ui (run newURL events mounted))).
Proof.
  induction events as [|e events IH] using rev_ind; [left; reflexivity|].
  rewrite run_snoc.
  destruct (step_loadedUrl newURL e (run newURL events mounted)) as [Hsame|Hvetted].
  - rewrite Hsame. exact IH.
  - right. exact Hvetted.
Qed.

Lemma step_pressLoad_new newURL (w : World) (normalized : string) :
  validateAndNormalizeUrl newURL (inputUrl (ui w))
  = {| isValid := true; normalizedUrl := Some normalized |} ->
  truthy normalized = true ->
  normalized <> loadedUrl (ui w) ->
  step newURL pressLoad w
  = {| ui := setInputUrl normalized
               (setLoadedUrl normalized
                  (setWebViewError None (setHasNotifiedOnLoad false (ui w))));
       effects := effects w |}.
Proof.
  intros Hvalid Htruthy Hnew. apply String.eqb_neq in Hnew.
  unfold step. cbn [handle].
  rewrite (loadWebView_accepted newURL (ui w) normalized w Hvalid Htruthy).
  rewrite Hnew. reflexivity.
Qed.

Lemma step_onLoadEnd_first newURL (w : World) (nativeEvent : NativeEvent) :
  permissionsGranted (ui w) = true ->
  hasNotifiedOnLoad (ui w) = false ->
  loading nativeEvent = false ->
  title nativeEvent <> "Webpage not available"%string ->
  step newURL (onLoadEnd nativeEvent) w
  = {| ui := setHasNotifiedOnLoad true (setIsLoading false (ui w));
       effects := effects w ++ [loadedNotice (loadedUrl (ui w))] |}.
Proof.
  intros Hgranted Hnotified Hloading Htitle. apply String.eqb_neq in Htitle.
  unfold step. cbn [handle]. unfold handleLoadingEnd.
  rewrite Hgranted, Hnotified, Hloading, Htitle. reflexivity.
Qed.

Lemma step_onLoadEnd_again newURL (w : World) (nativeEvent : NativeEvent) :
  hasNotifiedOnLoad (ui w) = true ->
  step newURL (onLoadEnd nativeEvent) w = setState (setIsLoading false) w.
Proof.
  intros Hnotified. unfold step. cbn [handle]. unfold handleLoadingEnd.
  rewrite Hnotified, andb_false_r. reflexivity.
Qed.

Lemma step_onLoadEnd_no_permission newURL (w : World) (nativeEvent : NativeEvent) :
  permissionsGranted (ui w) = false ->
  step newURL (onLoadEnd nativeEvent) w = setState (setIsLoading false) w.
Proof.
  intros Hdenied. unfold step. cbn [handle]. unfold handleLoadingEnd.
  rewrite Hdenied. reflexivity.
Qed.

(** X9.  Loading a new page notifies once, if notifications are
    permitted: when the typed address is accepted and differs from the
    loaded one, it becomes the loaded URL and the text of the input; with
    permissions granted the first successful load end schedules the
    page-loaded notification for it, even if one had been sent for the
    previous page, and a repeated load end adds nothing; without
    permissions no notification is scheduled at all. *)
Theorem new_page_notifies_once
  newURL (w : World) (normalized : string) (nativeEvent : NativeEvent) :
  validateAndNormalizeUrl newURL (inputUrl (ui w))
  = {| isValid := true; normalizedUrl := Some normalized |} ->
  truthy normalized = true ->
  normalized <> loadedUrl (ui w) ->
  loading nativeEvent = false ->
  title nativeEvent <> "Webpage not available"%string ->
  loadedUrl (ui (run newURL [pressLoad; onLoadEnd nativeEvent; onLoadEnd nativeEvent] w))
  = normalized
  /\ inputUrl (ui (run newURL [pressLoad; onLoadEnd nativeEvent; onLoadEnd nativeEvent] w))
     = normalized
  /\ effects (run newURL [pressLoad; onLoadEnd nativeEvent; onLoadEnd nativeEvent] w)
     = effects w
       ++ (if permissionsGranted (ui w) then [loadedNotice normalized] else []).
Proof.
  intros Hvalid Htruthy Hnew Hloading Htitle.
  cbn [run fold_left].
  rewrite (step_pressLoad_new newURL w normalized Hvalid Htruthy Hnew).
  destruct (permissionsGranted (ui w)) eqn:Hgranted.
  - match goal with
    | |- context [step newURL (onLoadEnd nativeEvent) {| ui := ?u; effects := ?e |}] =>
        rewrite (step_onLoadEnd_first newURL {| ui := u; effects := e |} nativeEvent
                   Hgranted eq_refl Hloading Htitle)
    end.
    match goal with
    | |- context [step newURL (onLoadEnd nativeEvent) {| ui := ?u; effects := ?e |}] =>
        rewrite (step_onLoadEnd_again newURL {| ui := u; effects := e |} nativeEvent
                   eq_refl)
    end.
    repeat split; reflexivity.
  - match goal with
    | |- context [step newURL (onLoadEnd nativeEvent) {| ui := ?u; effects := ?e |}] =>
        rewrite (step_onLoadEnd_no_permission newURL {| ui := u; effects := e |}
                   nativeEvent Hgranted)
    end.
    unfold setState. cbn [ui effects].
    match goal with
    | |- context [step newURL (onLoadEnd nativeEvent) {| ui := ?u; effects := ?e |}] =>
        rewrite (step_onLoadEnd_no_permission newURL {| ui := u; effects := e |}
                   nativeEvent Hgranted)
    end.
    repeat split; try reflexivity. cbn. rewrite app_nil_r. reflexivity.
Qed.

(** "google.com" is typed over the default page and loads, with
    permissions granted and, from the start of the screen, without. *)
Lemma new_page_notifies_once_witness :
  effects (run googleOnly
             [pressLoad; onLoadEnd {| loading := false; title := "Google" |};
              onLoadEnd {| loading := false; title := "Google" |}]
             (run googleOnly [permissionsResolved true; onChangeUrlText "google.com"]
                mounted))
  = [loadedNotice "https://google.com/"]
  /\ effects (run googleOnly
                [pressLoad; onLoadEnd {| loading := false; title := "Google" |};
                 onLoadEnd {| loading := false; title := "Google" |}]
                (run googleOnly [onChangeUrlText "google.com"] mounted))
     = [].
Proof.
  split.
  - apply (new_page_notifies_once googleOnly
             (run googleOnly [permissionsResolved true; onChangeUrlText "google.com"] mounted)
             "https://google.com/" {| loading := false; title := "Google" |});
      try reflexivity; discriminate.
  - apply (new_page_notifies_once googleOnly
             (run googleOnly [onChangeUrlText "google.com"] mounted)
             "https://google.com/" {| loading := false; title := "Google" |});
      try reflexivity; discriminate.
Defined.

(** X10.  Opening the notification modal and pressing Send at once
    schedules one notification with the default delay of 3 seconds and
    closes the modal; the notification carries the target screen
    VideoPlayer when the modal was opened by Notify and Navigate, and no
    target when it was opened by Notify: Action Done. *)
Theorem open_modal_then_send newURL (w : World) :
  permissionsGranted (ui w) = true ->
  (effects (run newURL [pressNotifyAndNavigate; pressSend] w)
   = effects w
     ++ [schedule {| NotificationService.title := "Custom Navigation Alert";
                     body := "Tap me to see the HLS Video Player!";
                     delaySeconds := Some (inject_Z 3);
                     data := Some {| targetScreen := Some VideoPlayer |} |}]
   /\ isModalVisible (ui (run newURL [pressNotifyAndNavigate; pressSend] w)) = false)
  /\ (effects (run newURL [pressNotifyActionDone; pressSend] w)
      = effects w
        ++ [schedule {| NotificationService.title := "Custom Action Alert";
                        body := "Your action was confirmed.";
                        delaySeconds := Some (inject_Z 3);
                        data := Some {| targetScreen := None |} |}]
      /\ isModalVisible (ui (run newURL [pressNotifyActionDone; pressSend] w)) = false).
Proof.
  intros Hgranted.
  split; cbn [run fold_left]; unfold step; cbn [handle];
    unfold openModal, handleSendNotification, andThen, setState, perform, closeModal;
    cbn; rewrite Hgranted; cbn; auto.
Qed.

(** Both buttons pressed on a screen with permissions. *)
Lemma open_modal_then_send_witness :
  permissionsGranted (ui (run googleOnly [permissionsResolved true] mounted)) = true
  /\ isModalVisible
       (ui (run googleOnly [pressNotifyAndNavigate; pressSend]
              (run googleOnly [permissionsResolved true] mounted))) = false.
Proof.
  split; [reflexivity|].
  apply (open_modal_then_send googleOnly
           (run googleOnly [permissionsResolved true] mounted) eq_refl).
Defined.

End WebViewScreenFacts.

(** ** The video screen: further properties *)
Module VideoPlayerMore.
Import JsString VideoPlayer VideoPlayerControls VideoPlayerFacts.

Local Open Scope list_scope.
Local Open Scope Z_scope.

(** *** Stream switching, for every typed text *)

(** X11.  Load Stream on any typed text: a text whose trimmed length
    exceeds 10 and that contains "http" becomes the current URL exactly as
    typed, and position, duration and isPlaying are reset; any other text
    only raises the Invalid URL alert and leaves the playback state as it
    was.  In particular every text of at most 10 characters after trimming
    is rejected, whatever it is. *)
Theorem loadStream_any_text (w : World) (text : string) :
  (acceptable text = true ->
   currentVideoUrl (ui (run (loadStream text) w)) = text
   /\ position (ui (run (loadStream text) w)) = 0
   /\ duration (ui (run (loadStream text) w)) = 0
   /\ isPlaying (ui (run (loadStream text) w)) = false
   /\ issued (run (loadStream text) w)
      = issued w ++ [alert "URL Changed" "New stream source loaded."])
  /\ (acceptable text = false ->
      currentVideoUrl (ui (run (loadStream text) w)) = currentVideoUrl (ui w)
      /\ position (ui (run (loadStream text) w)) = position (ui w)
      /\ duration (ui (run (loadStream text) w)) = duration (ui w)
      /\ isPlaying (ui (run (loadStream text) w)) = isPlaying (ui w)
      /\ issued (run (loadStream text) w)
         = issued w ++ [alert "Invalid URL" "Please enter a valid stream URL."])
  /\ ((String.length (trim text) <= 10)%nat -> acceptable text = false).
Proof.
  unfold loadStream. rewrite !run_cons. cbn [run fold_left].
  rewrite !step_onChangeText. unfold step. frame_overlay. cbn [handle].
  split; [|split].
  - intros Hok. rewrite handleUrlChange_accepted by exact Hok. cbn. auto.
  - intros Hno. rewrite handleUrlChange_rejected by exact Hno. cbn. auto.
  - intros Hshort. unfold acceptable.
    destruct (Z.ltb_spec 10 (Z.of_nat (String.length (trim text)))); [lia|reflexivity].
Qed.

(** A short address and the test stream. *)
Lemma loadStream_any_text_witness :
  acceptable "http://a.b" = false
  /\ currentVideoUrl (ui (run (loadStream "http://a.b") mounted)) = INITIAL_HLS_URL
  /\ currentVideoUrl (ui (run (loadStream " http://host/live.m3u8 ") mounted))
     = " http://host/live.m3u8 "%string.
Proof.
  destruct (loadStream_any_text mounted "http://a.b") as (_ & Hrejected & Hshort).
  destruct (loadStream_any_text mounted " http://host/live.m3u8 ") as (Haccepted & _).
  split; [apply Hshort; vm_compute; lia|].
  split; [apply Hrejected; reflexivity|apply Haccepted; reflexivity].
Defined.

(** *** Fullscreen flag and orientation lock *)

Lemma lastLock_snoc (l : list Command) (c : Command) :
  lastLock (l ++ [c])
  = match c with
    | lockAsync o => Some o
    | _ => lastLock l
    end.
Proof. unfold lastLock. rewrite fold_left_app. reflexivity. Qed.

Ltac keep_lock H :=
  cbn [issued ui videoRef setState issue isFullscreen setPosition setIsPlaying
       setDuration setIsBuffering setIsSeeking setControlsVisible setIsFullscreen
       setCurrentVideoUrl setInputVideoUrl];
  rewrite ?lastLock_snoc; cbn [negb]; try exact H; try reflexivity.

Lemma step_lockAgrees (e : Event) (w : World) :
  lockAgrees w = true -> lockAgrees (step e w) = true.
Proof.
  intros H. unfold lockAgrees in *. unfold step. frame_overlay. destruct e; cbn [handle].
  - destruct status as [|s]; [exact H|].
    unfold handlePlaybackStatusUpdate, andThen, whenVideo, skip.
    destruct (isSeeking (ui w)), (Status.didJustFinish s); cbn [negb];
      cbn [issued ui videoRef setState issue];
      try destruct (videoRef w); keep_lock H.
  - unfold handleSeekStart, andThen, whenVideo.
    cbn [issued ui videoRef setState issue].
    destruct (videoRef w); keep_lock H.
  - unfold handleSeekComplete, handleSeek, andThen.
    unfold whenVideo at 2. destruct (videoRef w) eqn:Href.
    + unfold whenVideo.
      repeat (progress (frame_overlay; cbn [issued ui videoRef setState issue];
                        rewrite ?Href; rewrite ?lastLock_snoc)).
      keep_lock H. rewrite !(overlay_isFullscreen _ _ (overlay_fadeInControls _)).
      keep_lock H.
    + unfold whenVideo. rewrite Href. keep_lock H. rewrite ?Href. keep_lock H.
  - unfold handleSkip, whenVideo, andThen.
    destruct (videoRef w); [|exact H]. frame_overlay. keep_lock H.
  - unfold handleFullscreenUpdate, andThen. frame_overlay.
    destruct (fullscreenUpdate =? WILL_PRESENT); [keep_lock H|].
    destruct (fullscreenUpdate =? WILL_DISMISS); [keep_lock H|exact H].
  - exact H.
  - unfold handleUrlChange, andThen.
    destruct ((10 <? Z.of_nat (String.length (trim (inputVideoUrl (ui w)))))
              && includes "http" (inputVideoUrl (ui w))); keep_lock H.
  - pose proof (overlay_issued _ w (overlay_animationEnd (ui w))) as Hsame.
    pose proof (overlay_isFullscreen _ w (overlay_animationEnd (ui w))) as Hfull.
    cbn [handle] in Hsame, Hfull. rewrite Hsame, Hfull. exact H.
  - pose proof (overlay_issued _ w (overlay_timerFired (ui w) id)) as Hsame.
    pose proof (overlay_isFullscreen _ w (overlay_timerFired (ui w) id)) as Hfull.
    cbn [handle] in Hsame, Hfull. rewrite Hsame, Hfull. exact H.
Qed.

(** X12.  The fullscreen flag never disagrees with the orientation: after
    every sequence of events of the mounted screen, the latest orientation
    lock sent, if any, is the landscape lock exactly when isFullscreen is
    true (and the portrait lock exactly when it is false). *)
Theorem orientation_follows_fullscreen (events : list Event) :
  match lastLock (issued (run events mounted)) with
  | Some LANDSCAPE_LEFT => isFullscreen (ui (run events mounted)) = true
  | Some PORTRAIT => isFullscreen (ui (run events mounted)) = false
  | None => True
  end.
Proof.
  assert (Hinv : lockAgrees (run events mounted) = true).
  { induction events as [|e events IH] using rev_ind; [reflexivity|].
    rewrite run_app. cbn [run fold_left]. apply step_lockAgrees, IH. }
  unfold lockAgrees in Hinv.
  destruct (lastLock (issued (run events mounted))) as [[|]|]; auto.
  apply negb_true_iff. exact Hinv.
Qed.

(** *** A whole scrub gesture *)

Lemma tick_issued (status : AVPlaybackStatus) (w : World) :
  exists rewinds,
    onlyRewinds rewinds
    /\ issued (step (onPlaybackStatusUpdate status) w) = issued w ++ rewinds.
Proof.
  unfold step. frame_overlay. cbn [handle].
  destruct status as [|s];
    [exists []; split; [constructor|symmetry; apply app_nil_r]|].
  unfold handlePlaybackStatusUpdate, andThen, whenVideo, skip.
  destruct (isSeeking (ui w)), (Status.didJustFinish s); cbn [negb];
    cbn [issued ui videoRef setState issue];
    try destruct (videoRef w); cbn [issued ui videoRef setState issue];
    first [ exists []; split; [constructor|symmetry; apply app_nil_r]
          | exists [setPositionAsync 0]; split; [repeat constructor|reflexivity] ].
Qed.

Lemma ticks_issued (ticks : list AVPlaybackStatus) (w : World) :
  exists rewinds,
    onlyRewinds rewinds
    /\ issued (run (map onPlaybackStatusUpdate ticks) w) = issued w ++ rewinds.
Proof.
  revert w. induction ticks as [|t ticks IH]; intros w.
  - exists []. split; [constructor|symmetry; apply app_nil_r].
  - cbn [map]. rewrite run_cons.
    destruct (tick_issued t w) as (first & Hfirst & Hissued).
    destruct (IH (step (onPlaybackStatusUpdate t) w)) as (rest & Hrest & Hrun).
    exists (first ++ rest). split; [apply Forall_app; split; assumption|].
    rewrite Hrun, Hissued, app_assoc. reflexivity.
Qed.

Lemma ticks_position_seeking (ticks : list AVPlaybackStatus) (w : World) :
  isSeeking (ui w) = true ->
  position (ui (run (map onPlaybackStatusUpdate ticks) w)) = position (ui w).
Proof.
  revert w. induction ticks as [|t ticks IH]; intros w Hseek; [reflexivity|].
  cbn [map]. rewrite run_cons, IH.
  - apply tick_position_seeking, Hseek.
  - rewrite tick_isSeeking. exact Hseek.
Qed.

Lemma step_onSlidingStart (w : World) :
  videoRef w = true ->
  issued (step onSlidingStart w) = issued w ++ [pauseAsync]
  /\ isSeeking (ui (step onSlidingStart w)) = true
  /\ position (ui (step onSlidingStart w)) = position (ui w).
Proof.
  intros Href. unfold step. frame_overlay. cbn [handle].
  unfold handleSeekStart, andThen, whenVideo. cbn [videoRef setState].
  rewrite Href. auto.
Qed.

(** X13.  A whole scrub gesture on a mounted player, whatever status
    ticks arrive while the slider is held: the player is paused first, the
    display keeps the position it had until the release, the release seeks
    to the released value and resumes playback, and the ticks in between
    add nothing but the rewinds of a stream that reported its end. *)
Theorem scrub_gesture (w : World) (ticks : list AVPlaybackStatus) (value : SliderValue) :
  videoRef w = true ->
  position (ui (run (onSlidingStart :: map onPlaybackStatusUpdate ticks) w))
  = position (ui w)
  /\ position (ui (run (onSlidingStart :: map onPlaybackStatusUpdate ticks
                        ++ [onSlidingComplete value]) w)) = committed value
  /\ isSeeking (ui (run (onSlidingStart :: map onPlaybackStatusUpdate ticks
                         ++ [onSlidingComplete value]) w)) = false
  /\ exists rewinds,
       onlyRewinds rewinds
       /\ issued (run (onSlidingStart :: map onPlaybackStatusUpdate ticks
                       ++ [onSlidingComplete value]) w)
          = issued w ++ [pauseAsync] ++ rewinds
            ++ [setPositionAsync (committed value); playAsync].
Proof.
  intros Href.
  destruct (step_onSlidingStart w Href) as (Hpause & Hseek & Hpos).
  rewrite app_comm_cons, run_app, !run_cons. cbn [run fold_left].
  set (w1 := step onSlidingStart w) in *.
  set (w2 := run (map onPlaybackStatusUpdate ticks) w1).
  assert (Href2 : videoRef w2 = true).
  { unfold w2, w1. rewrite run_videoRef, step_videoRef. exact Href. }
  destruct (handleSeekComplete_mounted (ui w2) value w2 Href2)
    as (Hissued & Hcommitted & Hidle).
  destruct (ticks_issued ticks w1) as (rewinds & Hrewinds & Hticks).
  split; [|split; [|split]].
  - unfold w2. rewrite ticks_position_seeking; assumption.
  - unfold step. frame_overlay. cbn [handle]. exact Hcommitted.
  - unfold step. frame_overlay. cbn [handle]. exact Hidle.
  - exists rewinds. split; [exact Hrewinds|].
    unfold step. frame_overlay. cbn [handle].
    rewrite Hissued. fold w2 in Hticks. rewrite Hticks, Hpause.
    rewrite <- !app_assoc. reflexivity.
Qed.

(** The slider is held at 5000 while the stream reports 6000 and its
    end, then released at 30000. *)
Lemma scrub_gesture_witness :
  videoRef (run [tick 5000 (Some 120000) true false] mounted) = true
  /\ position (ui (run (onSlidingStart
                        :: map onPlaybackStatusUpdate
                             [Loaded {| Status.positionMillis := 6000;
                                        Status.durationMillis := Some 120000;
                                        Status.isPlaying := false;
                                        Status.isBuffering := false;
                                        Status.didJustFinish := true |}]
                        ++ [onSlidingComplete (number 30000)])
                     (run [tick 5000 (Some 120000) true false] mounted))) = 30000.
Proof.
  split; [reflexivity|].
  destruct (scrub_gesture (run [tick 5000 (Some 120000) true false] mounted)
              [Loaded {| Status.positionMillis := 6000;
                         Status.durationMillis := Some 120000;
                         Status.isPlaying := false;
                         Status.isBuffering := false;
                         Status.didJustFinish := true |}]
              (number 30000) eq_refl) as (_ & Hreleased & _).
  exact Hreleased.
Defined.

(** *** Auto-hide of the control overlay *)

Ltac unfold_overlay :=
  cbv [showControls fadeInControls fadeOutControls andThen clearHideControlsTimer
       startTiming setFadeAnim clearTimeout armHideControlsTimer setState
       runEndCallback handle step isPlayingEffect idPending skip
       ui videoRef hideControlsTimer timers nextTimer fadeAnim issued existsb].

Lemma showControls_playing (w : World) :
  quiet w = true ->
  isPlaying (ui w) = true ->
  showControls w
  = {| ui := setControlsVisible true (ui w); videoRef := videoRef w;
       hideControlsTimer := Some (nextTimer w); timers := [nextTimer w];
       nextTimer := S (nextTimer w); fadeAnim := None; issued := issued w |}.
Proof.
  destruct w as [u r held pending next anim log]. unfold quiet. cbn.
  destruct anim; [discriminate|].
  intros Hq Hplaying.
  destruct pending as [|id [|id' rest]], held as [h|]; try discriminate;
    try (apply Nat.eqb_eq in Hq; subst h);
    unfold_overlay; rewrite Hplaying; rewrite ?remove_only; reflexivity.
Qed.

Lemma step_timerFired_held (u : State) (r : bool) (id next : nat) (log : list Command) :
  step (timerFired id)
    {| ui := u; videoRef := r; hideControlsTimer := Some id; timers := [id];
       nextTimer := next; fadeAnim := None; issued := log |}
  = {| ui := u; videoRef := r; hideControlsTimer := Some id; timers := [];
       nextTimer := next; fadeAnim := Some hideControls; issued := log |}.
Proof.
  unfold_overlay. rewrite Nat.eqb_refl. cbn [orb]. rewrite remove_only.
  rewrite Bool.eqb_reflx. reflexivity.
Qed.

Lemma step_animationEnd_hides (u : State) (r : bool) (held : option nat)
  (pending : list nat) (next : nat) (log : list Command) :
  step animationEnd
    {| ui := u; videoRef := r; hideControlsTimer := held; timers := pending;
       nextTimer := next; fadeAnim := Some hideControls; issued := log |}
  = {| ui := setControlsVisible false u; videoRef := r; hideControlsTimer := held;
       timers := pending; nextTimer := next; fadeAnim := None; issued := log |}.
Proof.
  unfold_overlay.
  replace (isPlaying (setControlsVisible false u)) with (isPlaying u) by reflexivity.
  rewrite Bool.eqb_reflx. reflexivity.
Qed.

(** X14.  A full auto-hide cycle while playing, from a moment when no
    fade is running and no timer is pending but the held one: showing the
    controls arms one timer; when it fires and the fade-out ends, the
    controls are hidden, no timer is left, playback goes on and no command
    has been sent to the player. *)
Theorem autohide_cycle (w : World) :
  quiet w = true ->
  isPlaying (ui w) = true ->
  exists id,
    timers (showControls w) = [id]
    /\ controlsVisible (ui (showControls w)) = true
    /\ controlsVisible (ui (run [timerFired id; animationEnd] (showControls w))) = false
    /\ timers (run [timerFired id; animationEnd] (showControls w)) = []
    /\ isPlaying (ui (run [timerFired id; animationEnd] (showControls w))) = true
    /\ issued (run [timerFired id; animationEnd] (showControls w)) = issued w.
Proof.
  intros Hq Hplaying. exists (nextTimer w).
  rewrite (showControls_playing w Hq Hplaying). cbn [run fold_left].
  rewrite step_timerFired_held, step_animationEnd_hides.
  repeat split; try reflexivity. exact Hplaying.
Qed.

(** The stream plays, the first fade has ended. *)
Lemma autohide_cycle_witness :
  quiet (run [tick 0 (Some 120000) true false; animationEnd] mounted) = true
  /\ isPlaying (ui (run [tick 0 (Some 120000) true false; animationEnd] mounted)) = true
  /\ exists id,
       timers (showControls (run [tick 0 (Some 120000) true false; animationEnd] mounted))
       = [id].
Proof.
  split; [reflexivity|]. split; [reflexivity|].
  destruct (autohide_cycle (run [tick 0 (Some 120000) true false; animationEnd] mounted)
              eq_refl eq_refl) as (id & Htimers & _).
  exists id. exact Htimers.
Defined.

(** The status handler leaves the timers, the ref and the fade alone. *)
Lemma handlePlaybackStatusUpdate_shape (s : Status.AVPlaybackStatusSuccess) (w : World) :
  exists u' log',
    handlePlaybackStatusUpdate (ui w) (Loaded s) w
    = {| ui := u'; videoRef := videoRef w; hideControlsTimer := hideControlsTimer w;
         timers := timers w; nextTimer := nextTimer w; fadeAnim := fadeAnim w;
         issued := log' |}
    /\ isPlaying u' = (if Status.didJustFinish s then false else Status.isPlaying s).
Proof.
  destruct w as [u r held pending next anim log].
  unfold handlePlaybackStatusUpdate, andThen, whenVideo, skip, setState, issue.
  cbn [ui videoRef hideControlsTimer timers nextTimer fadeAnim issued].
  destruct (isSeeking u), (Status.didJustFinish s), r; cbn [negb];
    eexists; eexists; (split; [reflexivity|reflexivity]).
Qed.

Lemma isPlayingEffect_on_quiet (previous : bool) (w : World) :
  quiet w = true ->
  previous <> isPlaying (ui w) ->
  isPlayingEffect previous w
  = {| ui := setControlsVisible true (ui w); videoRef := videoRef w;
       hideControlsTimer := hideControlsTimer w; timers := [];
       nextTimer := nextTimer w;
       fadeAnim := Some (armHideTimerIf (isPlaying (ui w)));
       issued := issued w |}.
Proof.
  destruct w as [u r held pending next anim log]. unfold quiet.
  cbn [ui videoRef hideControlsTimer timers nextTimer fadeAnim issued].
  destruct anim; [discriminate|].
  intros Hq Hchange. apply Bool.eqb_false_iff in Hchange.
  destruct pending as [|id [|id' rest]], held as [h|]; try discriminate;
    try (apply Nat.eqb_eq in Hq; subst h);
    unfold_overlay; rewrite Hchange; cbn [List.remove];
    try (destruct (Nat.eq_dec id id); [|congruence]); reflexivity.
Qed.

Lemma step_animationEnd_fadeIn (u : State) (r : bool) (held : option nat)
  (next : nat) (log : list Command) :
  step animationEnd
    {| ui := u; videoRef := r; hideControlsTimer := held; timers := [];
       nextTimer := next; fadeAnim := Some (armHideTimerIf (isPlaying u));
       issued := log |}
  = if isPlaying u
    then {| ui := u; videoRef := r; hideControlsTimer := Some next; timers := [next];
            nextTimer := S next; fadeAnim := None; issued := log |}
    else {| ui := u; videoRef := r; hideControlsTimer := held; timers := [];
            nextTimer := next; fadeAnim := None; issued := log |}.
Proof.
  unfold_overlay. destruct (isPlaying u) eqn:Hplaying; cbv [app];
    rewrite ?Hplaying; reflexivity.
Qed.

(** X15.  The auto-hide timer follows the play state reported by the
    player: from a moment when no fade is running and no timer is pending
    but the held one, a status tick that changes isPlaying shows the
    controls, and once the fade-in has ended exactly one hide timer is
    armed if the stream now plays, and none if it is now paused (the timer
    that was pending is cancelled, so the controls stay). *)
Theorem autohide_follows_play_state (w : World) (s : Status.AVPlaybackStatusSuccess) :
  quiet w = true ->
  isPlaying (ui w) <> (if Status.didJustFinish s then false else Status.isPlaying s) ->
  List.length (timers (run [onPlaybackStatusUpdate (Loaded s); animationEnd] w))
  = (if (if Status.didJustFinish s then false else Status.isPlaying s)
     then 1 else 0)%nat
  /\ controlsVisible (ui (run [onPlaybackStatusUpdate (Loaded s); animationEnd] w)) = true
  /\ quiet (run [onPlaybackStatusUpdate (Loaded s); animationEnd] w) = true.
Proof.
  intros Hq Hchange. cbn [run fold_left].
  destruct (handlePlaybackStatusUpdate_shape s w) as (u' & log' & Hshape & Hplaying).
  rewrite <- Hplaying in *.
  assert (Hfirst : step (onPlaybackStatusUpdate (Loaded s)) w
                   = {| ui := setControlsVisible true u'; videoRef := videoRef w;
                        hideControlsTimer := hideControlsTimer w; timers := [];
                        nextTimer := nextTimer w;
                        fadeAnim := Some (armHideTimerIf
                                            (isPlaying (setControlsVisible true u')));
                        issued := log' |}).
  { unfold step. cbn [handle]. rewrite Hshape.
    rewrite isPlayingEffect_on_quiet; [reflexivity| |exact Hchange].
    unfold quiet in *. destruct w as [u r held pending next anim log]. exact Hq. }
  rewrite Hfirst, step_animationEnd_fadeIn.
  change (isPlaying (setControlsVisible true u')) with (isPlaying u').
  destruct (isPlaying u'); cbn; rewrite ?Nat.eqb_refl; auto.
Qed.

(** The stream plays with its hide timer armed, then reports a pause. *)
Lemma autohide_follows_play_state_witness :
  quiet (run [tick 0 (Some 120000) true false; animationEnd] mounted) = true
  /\ timers (run [tick 0 (Some 120000) true false; animationEnd] mounted) = [1%nat]
  /\ List.length
       (timers (run [tick 4000 (Some 120000) false false; animationEnd]
                  (run [tick 0 (Some 120000) true false; animationEnd] mounted)))
     = 0%nat.
Proof.
  split; [reflexivity|]. split; [reflexivity|].
  refine (proj1 (autohide_follows_play_state
                   (run [tick 0 (Some 120000) true false; animationEnd] mounted)
                   {| Status.positionMillis := 4000; Status.durationMillis := Some 120000;
                      Status.isPlaying := false; Status.isBuffering := false;
                      Status.didJustFinish := false |} eq_refl _)).
  vm_compute. discriminate.
Defined.

(** *** Tap on the overlay *)

Lemma overlay_handleTap (s : State) (currentOpacity : Q) :
  overlayOnly (handleTap s currentOpacity).
Proof.
  unfold handleTap.
  destruct (negb (controlsVisible s) || negb (Qle_bool 1 currentOpacity));
    [apply overlay_fadeInControls|].
  destruct (isPlaying s); [apply overlay_fadeOutControls|apply overlay_skip].
Qed.

(** X16.  A tap on the overlay, when no fade is running: it never sends a
    command nor touches the playback state; on hidden controls it shows
    them; on fully visible controls it hides them (once the fade-out has
    ended) if the stream plays, and does nothing at all if it is paused. *)
Theorem tap_toggles_only_while_playing (w : World) (currentOpacity : Q) :
  fadeAnim w = None ->
  overlayOnly (handleTap (ui w) currentOpacity)
  /\ (controlsVisible (ui w) = false ->
      controlsVisible (ui (handleTap (ui w) currentOpacity w)) = true)
  /\ (controlsVisible (ui w) = true -> Qle_bool 1 currentOpacity = true ->
      isPlaying (ui w) = true ->
      controlsVisible
        (ui (handle (ui w) animationEnd (handleTap (ui w) currentOpacity w))) = false)
  /\ (controlsVisible (ui w) = true -> Qle_bool 1 currentOpacity = true ->
      isPlaying (ui w) = false ->
      handleTap (ui w) currentOpacity w = w).
Proof.
  intros Hidle. split; [apply overlay_handleTap|].
  destruct w as [u r held pending next anim log].
  cbn [ui fadeAnim] in *. subst anim. unfold handleTap.
  split; [|split].
  - intros Hhidden. rewrite Hhidden. cbn [negb orb].
    unfold fadeInControls, andThen, clearHideControlsTimer, startTiming.
    destruct held; reflexivity.
  - intros Hvisible Hfull Hplaying. rewrite Hvisible, Hfull, Hplaying. reflexivity.
  - intros Hvisible Hfull Hpaused. rewrite Hvisible, Hfull, Hpaused. reflexivity.
Qed.

(** A tap on the visible controls of the paused screen. *)
Lemma tap_toggles_only_while_playing_witness :
  fadeAnim (run [animationEnd] mounted) = None
  /\ handleTap (ui (run [animationEnd] mounted)) 1 (run [animationEnd] mounted)
     = run [animationEnd] mounted.
Proof.
  split; [reflexivity|].
  destruct (tap_toggles_only_while_playing (run [animationEnd] mounted) 1 eq_refl)
    as (_ & _ & _ & Hpaused).
  apply Hpaused; reflexivity.
Defined.

(** *** Time labels *)

Lemma padStart2_below_100 (n : Z) :
  0 <= n < 100 -> padStart2 (stringOfZ n) = twoDigits n.
Proof.
  intros Hn. rewrite <- (Z2Nat.id n) by lia.
  assert (Hk : (Z.to_nat n < 100)%nat) by lia.
  generalize dependent (Z.to_nat n). clear Hn n. intros k Hk.
  do 100 (destruct k as [|k]; [reflexivity|]). lia.
Qed.

(** X17.  The time label of a position below 100 minutes is mm:ss: two
    digits for the whole minutes, a colon, two digits for the remaining
    whole seconds; milliseconds are dropped, hours are not split off. *)
Theorem formatTime_mmss (ms : Z) :
  0 <= ms < 6000000 ->
  formatTime ms
  = (twoDigits (ms / 60000) ++ ":" ++ twoDigits ((ms / 1000) mod 60))%string
  /\ String.length (formatTime ms) = 5%nat.
Proof.
  intros Hms.
  assert (Hformat : formatTime ms
                    = (twoDigits (ms / 60000) ++ ":"
                       ++ twoDigits ((ms / 1000) mod 60))%string).
  { unfold formatTime. destruct (Z.eqb_spec ms 0) as [->|Hnz]; [reflexivity|].
    cbv zeta.
    assert (Hts : 0 <= ms / 1000 < 6000).
    { split; [apply Z.div_pos; lia|apply Z.div_lt_upper_bound; lia]. }
    rewrite Z.rem_mod_nonneg by lia.
    rewrite Z.div_div by lia. change (1000 * 60) with 60000.
    assert (Hminutes : 0 <= ms / 60000 < 100).
    { split; [apply Z.div_pos; lia|apply Z.div_lt_upper_bound; lia]. }
    assert (Hseconds : 0 <= (ms / 1000) mod 60 < 100).
    { pose proof (Z.mod_pos_bound (ms / 1000) 60). lia. }
    rewrite (padStart2_below_100 _ Hminutes), (padStart2_below_100 _ Hseconds).
    reflexivity. }
  split; [exact Hformat|]. rewrite Hformat. reflexivity.
Qed.

(** One minute and five seconds and a half. *)
Lemma formatTime_mmss_witness :
  0 <= 65500 < 6000000 /\ formatTime 65500 = "01:05"%string.
Proof.
  split; [lia|].
  destruct (formatTime_mmss 65500) as [Hlabel _]; [lia|exact Hlabel].
Defined.

(** *** Repeated skips *)

Lemma step_pressSkip_mounted (direction : Direction) (w : World) :
  videoRef w = true ->
  position (ui (step (pressSkip direction) w)) = skipTarget direction (ui w)
  /\ duration (ui (step (pressSkip direction) w)) = duration (ui w)
  /\ videoRef (step (pressSkip direction) w) = true
  /\ countSeeks (issued (step (pressSkip direction) w)) = S (countSeeks (issued w)).
Proof.
  intros Href.
  destruct (handleSkip_mounted direction w Href) as (Hpos & Hdur).
  split; [exact Hpos|]. split; [exact Hdur|].
  split; [rewrite step_videoRef; exact Href|].
  unfold step. frame_overlay. cbn [handle].
  unfold handleSkip, whenVideo, andThen. rewrite Href. frame_overlay.
  cbn [issued ui setState issue]. rewrite countSeeks_app. cbn. lia.
Qed.

(** X18.  Skips compose: on a mounted player k >= 1 presses on skip
    forward display min(P + k * 10000, D), k presses on skip backward
    display max(P - k * 10000, 0), whatever P and D are, and each press
    sends the player exactly one seek command. *)
Theorem repeated_skips (w : World) (direction : Direction) (k : nat) :
  videoRef w = true ->
  (1 <= k)%nat ->
  position (ui (run (repeat (pressSkip direction) k) w))
  = match direction with
    | forward => Z.min (position (ui w) + Z.of_nat k * 10000) (duration (ui w))
    | backward => Z.max (position (ui w) - Z.of_nat k * 10000) 0
    end
  /\ countSeeks (issued (run (repeat (pressSkip direction) k) w))
     = (countSeeks (issued w) + k)%nat.
Proof.
  intros Href Hk. destruct k as [|k]; [lia|]. clear Hk.
  revert w Href. induction k as [|k IH]; intros w Href.
  - cbn [repeat run fold_left].
    destruct (step_pressSkip_mounted direction w Href) as (Hpos & _ & _ & Hseeks).
    rewrite Hpos, Hseeks. unfold skipTarget, SKIP_TIME_MS.
    split; [destruct direction; f_equal; lia|lia].
  - change (repeat (pressSkip direction) (S (S k)))
      with (pressSkip direction :: repeat (pressSkip direction) (S k)).
    rewrite run_cons.
    destruct (step_pressSkip_mounted direction w Href) as (Hpos & Hdur & Href' & Hseeks).
    destruct (IH (step (pressSkip direction) w) Href') as (IHpos & IHseeks).
    rewrite IHpos, IHseeks, Hpos, Hdur, Hseeks.
    unfold skipTarget, SKIP_TIME_MS.
    split; [destruct direction; lia|lia].
Qed.

(** Three presses on skip forward near the end of a stream. *)
Lemma repeated_skips_witness :
  videoRef (run [tick 100000 (Some 120000) true false] mounted) = true
  /\ (1 <= 3)%nat
  /\ position (ui (run (repeat (pressSkip forward) 3)
                     (run [tick 100000 (Some 120000) true false] mounted))) = 120000.
Proof.
  split; [reflexivity|]. split; [lia|].
  exact (proj1 (repeated_skips (run [tick 100000 (Some 120000) true false] mounted)
                  forward 3 eq_refl (le_S _ _ (le_S _ _ (le_n 1))))).
Defined.

End VideoPlayerMore.
